(** * telesock: the per-connection SOCKS5 handler

    A shallow embedding of [internal/socks5.go] and of [runTCPConn] from
    [main.go].  A connection handler is a function on an explicit
    [TCPConn] state; every call it makes on its collaborators (the
    buffered client reader, the client writer, the constant-time
    comparison, the dialler, the two [Close] calls) is appended to a
    ghost [trace], so that statements such as "no reply is written" or
    "every credential is compared" are statements about that trace. *)

From Stdlib.Strings Require Import String Byte.
From Stdlib Require Import List ZArith Lia Bool.
Import ListNotations.

Local Open Scope Z_scope.

(** ** Bytes *)

(** The numeric value of a [byte], as Go's [uint8]. *)
Definition u8 (b : byte) : Z := Z.of_N (Byte.to_N b).

(** Go's conversion [byte(v)]: the low eight bits. *)
Definition to_byte (v : Z) : byte :=
  match Byte.of_N (Z.to_N (v mod 256)) with
  | Some b => b
  | None => x00
  end.

(** [b == c] on bytes. *)
Definition beq (b c : byte) : bool := Byte.eqb b c.
Arguments beq : simpl never.

(** ** crypto/subtle *)

Module subtle.

(** [int((uint32(x^y) - 1) >> 31)] *)
Definition ConstantTimeByteEq (x y : Z) : Z :=
  Z.shiftr ((Z.lxor x y - 1) mod 2 ^ 32) 31.

(** The loop [for i := 0; i < len(x); i++ { v |= x[i] ^ y[i] }]. *)
Fixpoint accumulate (x y : list byte) (v : Z) : Z :=
  match x, y with
  | a :: x', b :: y' => accumulate x' y' (Z.lor v (Z.lxor (u8 a) (u8 b)))
  | _, _ => v
  end.

Definition ConstantTimeCompare (x y : list byte) : Z :=
  if negb (length x =? length y)%nat then 0
  else ConstantTimeByteEq (accumulate x y 0) 0.

End subtle.

(** ** net *)

Module net.

Record TCPAddr := { IP : list byte; Port : Z }.

(** A dialled connection, as far as the handler looks at it. *)
Record TCPConn := { LocalAddr : TCPAddr }.

Definition isZeros (p : list byte) : bool := forallb (fun b => beq b x00) p.

(** [IP.To4]: the 4-byte form of an IPv4 address, [nil] otherwise. *)
Definition To4 (ip : list byte) : list byte :=
  if (length ip =? 4)%nat then ip
  else if (length ip =? 16)%nat && isZeros (firstn 10 ip)
          && beq (nth 10 ip x00) xff && beq (nth 11 ip x00) xff
       then skipn 12 ip
       else [].

End net.

(** Go's builtin [copy(dst, src)]. *)
Definition copy (dst src : list byte) : list byte :=
  firstn (length dst) src ++ skipn (length src) dst.

(** ** Configuration *)

Record User := { Username : string; Password : string }.

Record Config := { Server : string; Users : list User }.

(** [[]byte(s)] *)
Definition bytes (s : string) : list byte := list_byte_of_string s.

(** ** The connection state *)

Inductive event :=
| EvReadByte (r : option byte)            (* clientR.ReadByte(); None is err != nil *)
| EvReadFull (n : nat) (got : list byte)  (* io.ReadFull / binary.Read of n bytes on clientR *)
| EvWrite (b : list byte) (n : nat)       (* clientW.Write(b) passed n bytes on *)
| EvCompare (x y : list byte)             (* subtle.ConstantTimeCompare(x, y) *)
| EvDial (raddr : net.TCPAddr) (ok : bool)(* net.DialTCP("tcp4", nil, raddr) *)
| EvRun                                   (* Run entered *)
| EvForward (b : list byte) (ok : bool)   (* the goroutine of Run: server.Write(b) *)
| EvGoroutineEnd                          (* the goroutine of Run returned *)
| EvCloseServer                           (* tcp.server.Close() *)
| EvCloseClient.                          (* tcp.clientW.Close() *)

(** [clientR] holds the bytes the client still delivers; a read past
    their end fails (end of stream or a transport error).  [clientW] is
    the number of bytes the client connection still accepts before its
    [Write] fails, [None] for a connection that never fails.  The logger
    [l] is left out: no call on it changes the state below. *)
Record TCPConn := mkTCPConn {
  conf : Config;
  clientR : list byte;
  clientW : option nat;
  server : option net.TCPConn;
  copier : bool;            (* the goroutine started by Run is still copying *)
  trace : list event
}.

Definition log (e : event) (tcp : TCPConn) : TCPConn :=
  mkTCPConn (conf tcp) (clientR tcp) (clientW tcp) (server tcp) (copier tcp)
            (trace tcp ++ [e]).

Definition set_clientR (r : list byte) (tcp : TCPConn) : TCPConn :=
  mkTCPConn (conf tcp) r (clientW tcp) (server tcp) (copier tcp) (trace tcp).

Definition set_clientW (w : option nat) (tcp : TCPConn) : TCPConn :=
  mkTCPConn (conf tcp) (clientR tcp) w (server tcp) (copier tcp) (trace tcp).

Definition set_server (s : option net.TCPConn) (tcp : TCPConn) : TCPConn :=
  mkTCPConn (conf tcp) (clientR tcp) (clientW tcp) s (copier tcp) (trace tcp).

Definition set_copier (c : bool) (tcp : TCPConn) : TCPConn :=
  mkTCPConn (conf tcp) (clientR tcp) (clientW tcp) (server tcp) c (trace tcp).

(** The client connection as the acceptor hands it over. *)
Record ClientConn := { incoming : list byte; accepts : option nat }.

Definition NewTCPConn (c : ClientConn) (conf : Config) : TCPConn :=
  mkTCPConn conf (incoming c) (accepts c) None false [].

(** ** Calls on the client streams *)

(** [tcp.clientR.ReadByte()] *)
Definition ReadByte (tcp : TCPConn) : option byte * TCPConn :=
  match clientR tcp with
  | b :: r => (Some b, log (EvReadByte (Some b)) (set_clientR r tcp))
  | [] => (None, log (EvReadByte None) tcp)
  end.

(** [io.ReadFull(tcp.clientR, buf)] with [len(buf) = n]: all [n] bytes or
    an error; a buffer of length 0 is filled without a read. *)
Definition ReadFull (n : nat) (tcp : TCPConn) : option (list byte) * TCPConn :=
  let got := firstn n (clientR tcp) in
  let tcp' := log (EvReadFull n got) (set_clientR (skipn n (clientR tcp)) tcp) in
  if (length got =? n)%nat then (Some got, tcp') else (None, tcp').

(** [tcp.clientW.Write(b)]: [Some tt] is [err == nil]. *)
Definition Write (b : list byte) (tcp : TCPConn) : option unit * TCPConn :=
  match clientW tcp with
  | None => (Some tt, log (EvWrite b (length b)) tcp)
  | Some room =>
      if (length b <=? room)%nat
      then (Some tt, log (EvWrite b (length b)) (set_clientW (Some (room - length b)%nat) tcp))
      else (None, log (EvWrite b room) (set_clientW (Some 0%nat) tcp))
  end.

(** The bytes that reached the client, read off a trace. *)
Fixpoint sent (tr : list event) : list byte :=
  match tr with
  | [] => []
  | EvWrite b n :: tr' => firstn n b ++ sent tr'
  | _ :: tr' => sent tr'
  end.

(** The buffers handed to [clientW.Write], in order. *)
Fixpoint writes (tr : list event) : list (list byte) :=
  match tr with
  | [] => []
  | EvWrite b _ :: tr' => b :: writes tr'
  | _ :: tr' => writes tr'
  end.

(** The comparisons made, in order. *)
Fixpoint compares (tr : list event) : list (list byte * list byte) :=
  match tr with
  | [] => []
  | EvCompare x y :: tr' => (x, y) :: compares tr'
  | _ :: tr' => compares tr'
  end.

(** ** Function bodies with early [return] *)

(** A statement sequence inside a function returning [R]: it either
    executes [return r] ([inl r]) or falls through with a value. *)
Definition Body (R A : Type) : Type := TCPConn -> (R + A) * TCPConn.

Definition pure {R A} (a : A) : Body R A := fun tcp => (inr a, tcp).

Definition Return {R A} (r : R) : Body R A := fun tcp => (inl r, tcp).

Definition bind {R A B} (m : Body R A) (k : A -> Body R B) : Body R B :=
  fun tcp =>
    match m tcp with
    | (inl r, tcp') => (inl r, tcp')
    | (inr a, tcp') => k a tcp'
    end.

(** [if c { return r }] *)
Definition returnIf {R} (c : bool) (r : R) : Body R unit :=
  if c then Return r else pure tt.

(** [v, err := call; if err != nil { l.Error(err); return r }] *)
Definition orReturn {R A} (call : TCPConn -> option A * TCPConn) (r : R) : Body R A :=
  fun tcp =>
    match call tcp with
    | (Some a, tcp') => (inr a, tcp')
    | (None, tcp') => (inl r, tcp')
    end.

(** A call that cannot fail. *)
Definition lift {R A} (call : TCPConn -> A * TCPConn) : Body R A :=
  fun tcp => let (a, tcp') := call tcp in (inr a, tcp').

(** The function whose body is [m]. *)
Definition func {R} (m : Body R R) (tcp : TCPConn) : R * TCPConn :=
  match m tcp with
  | (inl r, tcp') => (r, tcp')
  | (inr r, tcp') => (r, tcp')
  end.

Declare Scope body_scope.
Delimit Scope body_scope with body.
Notation "x <- m ;; k" := (bind m (fun x => k))
  (at level 61, m at next level, right associativity) : body_scope.
Notation "m ;; k" := (bind m (fun _ => k))
  (at level 61, right associativity) : body_scope.
Local Open Scope body_scope.

(** ** Auth *)

(** Lines 88-94: [method := byte(255)], then the loop that stops at the
    first offered method equal to 2. *)
Fixpoint Auth_method (methods : list byte) : byte :=
  match methods with
  | [] => xff
  | m :: methods' => if beq m x02 then m else Auth_method methods'
  end.

(** [subtle.ConstantTimeCompare(x, y)] as a call of the handler. *)
Definition ConstantTimeCompare (x y : list byte) (tcp : TCPConn) : Z * TCPConn :=
  (subtle.ConstantTimeCompare x y, log (EvCompare x y) tcp).

(** Lines 146-153: the loop over [tcp.conf.Users], started with
    [userFound]. *)
Fixpoint Auth_users {R} (username password : list byte) (users : list User)
    (userFound : bool) : Body R bool :=
  match users with
  | [] => pure userFound
  | user :: users' =>
      c <- lift (ConstantTimeCompare username (bytes (Username user))) ;;
      let usernameOk := c =? 1 in
      c <- lift (ConstantTimeCompare password (bytes (Password user))) ;;
      let passwordOk := c =? 1 in
      Auth_users username password users'
        (if usernameOk && passwordOk then true else userFound)
  end.

Definition Auth : TCPConn -> bool * TCPConn :=
  func (
    ver <- orReturn ReadByte false ;;
    returnIf (negb (beq ver x05)) false ;;

    nmethod <- orReturn ReadByte false ;;
    methods <- orReturn (ReadFull (Byte.to_nat nmethod)) false ;;
    let method := Auth_method methods in

    let b := [x05; method] in
    orReturn (Write b) false ;;
    returnIf (beq method xff) false ;;

    ver <- orReturn ReadByte false ;;
    returnIf (negb (beq ver x01)) false ;;

    len <- orReturn ReadByte false ;;
    returnIf (beq len x00) false ;;
    username <- orReturn (ReadFull (Byte.to_nat len)) false ;;

    len <- orReturn ReadByte false ;;
    returnIf (beq len x00) false ;;
    password <- orReturn (ReadFull (Byte.to_nat len)) false ;;

    userFound <- (fun tcp => Auth_users username password (Users (conf tcp)) false tcp) ;;

    let b := [x01; if negb userFound then x01 else x00] in
    orReturn (Write b) false ;;

    if beq (nth 1 b x00) x00 then Return true else Return false).

(** ** encoding/binary, big endian *)

Module binary.

(** [uint16(b[1]) | uint16(b[0])<<8] *)
Definition Uint16 (b0 b1 : byte) : Z := Z.lor (u8 b1) (Z.shiftl (u8 b0) 8).

(** [b[0] = byte(v >> 8); b[1] = byte(v)] *)
Definition PutUint16 (v : Z) : list byte := [to_byte (Z.shiftr v 8); to_byte v].

End binary.

(** ** Req *)

Record req := { Ver : byte; Cmd : byte; Rsv : byte; Atyp : byte }.

Record ipv4Addr := { Addr : list byte (* [4]byte *); Port : Z (* uint16 *) }.

Record res := { res_Ver : byte; Rep : byte; res_Rsv : byte; res_Atyp : byte }.

Definition decode_req (b : list byte) : req :=
  {| Ver := nth 0 b x00; Cmd := nth 1 b x00; Rsv := nth 2 b x00; Atyp := nth 3 b x00 |}.

Definition decode_ipv4Addr (b : list byte) : ipv4Addr :=
  {| Addr := firstn 4 b; Port := binary.Uint16 (nth 4 b x00) (nth 5 b x00) |}.

Definition encode_res (r : res) : list byte :=
  [res_Ver r; Rep r; res_Rsv r; res_Atyp r].

Definition encode_ipv4Addr (a : ipv4Addr) : list byte :=
  Addr a ++ binary.PutUint16 (Port a).

(** [binary.Read(tcp.clientR, binary.BigEndian, &v)] for a value of [size]
    bytes: one [io.ReadFull], then the decoding. *)
Definition binary_Read {V} (size : nat) (decode : list byte -> V) (tcp : TCPConn)
    : option V * TCPConn :=
  match ReadFull size tcp with
  | (Some b, tcp') => (Some (decode b), tcp')
  | (None, tcp') => (None, tcp')
  end.

(** [binary.Write(tcp.clientW, binary.BigEndian, v)]: the encoding, then
    one [Write]. *)
Definition binary_Write {V} (encode : V -> list byte) (v : V) : TCPConn -> option unit * TCPConn :=
  Write (encode v).

(** [tcp.server = server] *)
Definition assign_server (s : net.TCPConn) (tcp : TCPConn) : unit * TCPConn :=
  (tt, set_server (Some s) tcp).

(** What can happen on the two sockets while [Run] copies. *)
Inductive relay_event :=
| ClientRead (more : nat) (accepted : bool)
    (* a Read of the goroutine's copy on clientR returns: the next
       [1 + more] bytes at most, which server.Write then accepts or not;
       with clientR at its end the Read fails *)
| ServerRead (b : list byte)
    (* a Read of Run's own copy on server returns b, which goes to clientW *)
| ServerEnd.
    (* a Read of Run's own copy on server returns io.EOF or an error *)

Section Handler.

(** The network as the handler meets it: what [net.DialTCP("tcp4", nil,
    raddr)] answers ([None] is [err != nil]), and what happens on the two
    sockets during the relay. *)
Variable DialTCP : net.TCPAddr -> option net.TCPConn.
Variable relay : list relay_event.

Definition Dial (raddr : net.TCPAddr) (tcp : TCPConn) : option net.TCPConn * TCPConn :=
  match DialTCP raddr with
  | Some c => (Some c, log (EvDial raddr true) tcp)
  | None => (None, log (EvDial raddr false) tcp)
  end.

Definition Req : TCPConn -> bool * TCPConn :=
  func (
    req <- orReturn (binary_Read 4 decode_req) false ;;
    returnIf (negb (beq (Ver req) x05)) false ;;
    returnIf (negb (beq (Cmd req) x01)) false ;;
    returnIf (negb (beq (Rsv req) x00)) false ;;
    returnIf (negb (beq (Atyp req) x01)) false ;;

    ipv4AddrReq <- orReturn (binary_Read 6 decode_ipv4Addr) false ;;

    let res := {| res_Ver := x05; Rep := x00; res_Rsv := x00; res_Atyp := x01 |} in
    let raddr := {| net.IP := Addr ipv4AddrReq; net.Port := Port ipv4AddrReq |} in
    dialled <- lift (Dial raddr) ;;
    match dialled with
    | None =>
        let res := {| res_Ver := res_Ver res; Rep := x01;
                      res_Rsv := res_Rsv res; res_Atyp := res_Atyp res |} in
        lift (binary_Write encode_res res) ;;
        Return false
    | Some server =>
        orReturn (binary_Write encode_res res) false ;;

        lift (assign_server server) ;;
        let laddr := net.LocalAddr server in
        let ipv4AddrRes :=
          {| Addr := copy [x00; x00; x00; x00] (net.To4 (net.IP laddr));
             Port := net.Port laddr mod 2 ^ 16 |} in

        orReturn (binary_Write encode_ipv4Addr ipv4AddrRes) false ;;

        Return true
    end).

(** ** Close *)

Definition Close (tcp : TCPConn) : TCPConn :=
  let tcp := match server tcp with
             | Some _ => log EvCloseServer tcp
             | None => tcp
             end in
  log EvCloseClient tcp.

(** ** Run *)

(** One turn of [io.Copy(tcp.server, tcp.clientR)] in the goroutine. *)
Definition goroutine_copy (more : nat) (accepted : bool) (tcp : TCPConn) : TCPConn :=
  if negb (copier tcp) then tcp
  else
    match firstn (S more) (clientR tcp) with
    | [] => log EvGoroutineEnd (set_copier false tcp)
    | b =>
        let tcp := log (EvForward b accepted) (set_clientR (skipn (S more) (clientR tcp)) tcp) in
        if accepted then tcp else log EvGoroutineEnd (set_copier false tcp)
    end.

(** [io.Copy(tcp.clientW, tcp.server)] on the session's own task, with
    the goroutine's turns interleaved as [relay] orders them.  The
    boolean tells whether the copy, and so [Run], returned: with the
    events exhausted it is still blocked in a Read on [server]. *)
Fixpoint Run_copy (events : list relay_event) (tcp : TCPConn) : bool * TCPConn :=
  match events with
  | [] => (false, tcp)
  | ClientRead more accepted :: events' =>
      Run_copy events' (goroutine_copy more accepted tcp)
  | ServerRead b :: events' =>
      match Write b tcp with
      | (Some _, tcp') => Run_copy events' tcp'
      | (None, tcp') => (true, tcp')
      end
  | ServerEnd :: _ => (true, tcp)
  end.

Definition Run (tcp : TCPConn) : bool * TCPConn :=
  Run_copy relay (set_copier true (log EvRun tcp)).

(** ** runTCPConn *)

(** The deferred [tcp.Close()] runs when [runTCPConn] returns, which it
    does not while [Run] is blocked. *)
Definition runTCPConn (c : ClientConn) (conf : Config) : TCPConn :=
  let tcp := NewTCPConn c conf in
  let (ok, tcp) := Auth tcp in
  if negb ok then Close tcp
  else
    let (ok, tcp) := Req tcp in
    if negb ok then Close tcp
    else
      let (returned, tcp) := Run tcp in
      if returned then Close tcp else tcp.

(** Once both connections are closed, the pending Read of a goroutine
    that still copies fails, and it returns. *)
Definition goroutine_wakes (tcp : TCPConn) : TCPConn :=
  if copier tcp && existsb (fun e => match e with EvCloseClient => true | _ => false end) (trace tcp)
  then log EvGoroutineEnd (set_copier false tcp)
  else tcp.

Definition session (c : ClientConn) (conf : Config) : TCPConn :=
  goroutine_wakes (runTCPConn c conf).

End Handler.

(** * Notions used in the statements *)

(** [w] has room for [n] more bytes. *)
Definition has_room (n : nat) (w : option nat) : Prop :=
  match w with
  | None => True
  | Some room => (n <= room)%nat
  end.

(** [w] after [n] bytes went through. *)
Definition less_room (n : nat) (w : option nat) : option nat :=
  option_map (fun room => (room - n)%nat) w.

(** What one configured credential contributes: both comparisons, each
    tested against 1. *)
Definition userOk (username password : list byte) (user : User) : bool :=
  (subtle.ConstantTimeCompare username (bytes (Username user)) =? 1)
  && (subtle.ConstantTimeCompare password (bytes (Password user)) =? 1).

(** The events of a greeting that selects method 2. *)
Definition greeting_events (nmethod : byte) (methods : list byte) : list event :=
  [EvReadByte (Some x05); EvReadByte (Some nmethod);
   EvReadFull (length methods) methods; EvWrite [x05; x02] 2].

(** The comparisons of a scan over [users]. *)
Definition scan_events (username password : list byte) (users : list User) : list event :=
  flat_map (fun user => [EvCompare username (bytes (Username user));
                         EvCompare password (bytes (Password user))]) users.

(** The request up to the dial. *)
Definition request_events (a0 a1 a2 a3 p0 p1 : byte) (ok : bool) : list event :=
  [EvReadFull 4 [x05; x01; x00; x01];
   EvReadFull 6 [a0; a1; a2; a3; p0; p1];
   EvDial {| net.IP := [a0; a1; a2; a3]; net.Port := binary.Uint16 p0 p1 |} ok].

(** The calls of [Auth] and [Req]. *)
Definition handshake (e : event) : Prop :=
  match e with
  | EvReadByte _ | EvReadFull _ _ | EvWrite _ _ | EvCompare _ _ | EvDial _ _ => True
  | _ => False
  end.

(** An event of the relay: anything but a [Close]. *)
Definition not_close (e : event) : Prop :=
  match e with
  | EvCloseServer | EvCloseClient => False
  | _ => True
  end.

(** [tcp'] comes from [tcp] by handshake calls only, and the goroutine of
    [Run] is where it was. *)
Definition extends (tcp tcp' : TCPConn) : Prop :=
  copier tcp' = copier tcp
  /\ exists evs, trace tcp' = trace tcp ++ evs /\ Forall handshake evs.

(** [tcp.server] is what it was. *)
Definition same_server (tcp tcp' : TCPConn) : Prop := server tcp' = server tcp.

(** Every run of the body [m], and of the call [f], relates the state it
    starts in to the state it ends in. *)
Definition keeps {R A} (rel : TCPConn -> TCPConn -> Prop) (m : Body R A) : Prop :=
  forall tcp, rel tcp (snd (m tcp)).

Definition keeps_call {A} (rel : TCPConn -> TCPConn -> Prop)
    (f : TCPConn -> A * TCPConn) : Prop :=
  forall tcp, rel tcp (snd (f tcp)).


(** How often each resource was closed. *)
Fixpoint closes_server (tr : list event) : nat :=
  match tr with
  | [] => 0
  | EvCloseServer :: tr' => S (closes_server tr')
  | _ :: tr' => closes_server tr'
  end.

Fixpoint closes_client (tr : list event) : nat :=
  match tr with
  | [] => 0
  | EvCloseClient :: tr' => S (closes_client tr')
  | _ :: tr' => closes_client tr'
  end.

(** ** Sample data *)

Definition users1 : Config :=
  {| Server := ""; Users := [ {| Username := "user"; Password := "pass" |} ] |}.

Definition greeting_auth : list byte :=
  [x05; x01; x02; x01; x04] ++ bytes "user" ++ [x04] ++ bytes "pass".

Definition connect_127_0_0_1_80 : list byte :=
  [x05; x01; x00; x01; x7f; x00; x00; x01; x00; x50].

Definition unreachable (_ : net.TCPAddr) : option net.TCPConn := None.

Definition reachable (_ : net.TCPAddr) : option net.TCPConn :=
  Some {| net.LocalAddr := {| net.IP := [xc0; xa8; x00; x02]; net.Port := 51234 |} |}.

(** * Further notions *)

(** The buffers the goroutine of [Run] handed to [server.Write], joined. *)
Fixpoint forwarded (tr : list event) : list byte :=
  match tr with
  | [] => []
  | EvForward b _ :: tr' => b ++ forwarded tr'
  | _ :: tr' => forwarded tr'
  end.

(** What the destination delivers before its stream ends. *)
Fixpoint server_chunks (events : list relay_event) : list (list byte) :=
  match events with
  | [] => []
  | ServerRead b :: events' => b :: server_chunks events'
  | ServerEnd :: _ => []
  | ClientRead _ _ :: events' => server_chunks events'
  end.

(** [tcp'] comes from [tcp] by taking at most [k] bytes off [clientR]. *)
Definition reads_at_most (k : nat) (tcp tcp' : TCPConn) : Prop :=
  exists bs, clientR tcp = bs ++ clientR tcp' /\ (length bs <= k)%nat.

(** The weight of a trace under a weight of its events. *)
Definition total (weight : event -> nat) (evs : list event) : nat :=
  list_sum (map weight evs).

(** [tcp'] comes from [tcp] by calls of a total weight of at most [k]. *)
Definition emits (weight : event -> nat) (k : nat) (tcp tcp' : TCPConn) : Prop :=
  exists evs, trace tcp' = trace tcp ++ evs /\ (total weight evs <= k)%nat.

(** The bytes handed to [clientW.Write] by a call. *)
Definition write_bytes (e : event) : nat :=
  match e with
  | EvWrite b _ => length b
  | _ => 0%nat
  end.

(** One for a dial. *)
Definition dials (e : event) : nat :=
  match e with
  | EvDial _ _ => 1%nat
  | _ => 0%nat
  end.

(** Every run of the body [m], and of the call [f], costs at most [k]. *)
Definition spends {R A} (cost : nat -> TCPConn -> TCPConn -> Prop) (k : nat)
    (m : Body R A) : Prop :=
  forall tcp, cost k tcp (snd (m tcp)).

Definition spends_call {A} (cost : nat -> TCPConn -> TCPConn -> Prop) (k : nat)
    (f : TCPConn -> A * TCPConn) : Prop :=
  forall tcp, cost k tcp (snd (f tcp)).

(** The six bytes [Req] writes after the header of a successful reply. *)
Definition bound_address (srv : net.TCPConn) : list byte :=
  encode_ipv4Addr
    {| Addr := copy [x00; x00; x00; x00] (net.To4 (net.IP (net.LocalAddr srv)));
       Port := net.Port (net.LocalAddr srv) mod 2 ^ 16 |}.

(** The calls of the relay. *)
Definition relaying (e : event) : Prop :=
  match e with
  | EvWrite _ _ | EvForward _ _ | EvGoroutineEnd => True
  | _ => False
  end.

(** * runTCPListener *)

(** What one [tcp.Accept()] of the listener's loop returns: a connection
    (with whether [SetReadBuffer] and [SetWriteBuffer] then fail on it),
    or an error, with whether [ctx.Err() != nil] at that time. *)
Inductive accept_result :=
| Accepted (c : ClientConn) (rbuf_err wbuf_err : bool)
| AcceptFailed (cancelled : bool).

(** The listener's own state: the counter of its [sync.WaitGroup] and the
    connections for which it has started [go runTCPConn]. *)
Record Listener := { wg : nat; started : list ClientConn }.

(** Where [runTCPListener] stands once the accepts given are used up. *)
Inductive listener_end :=
| InAccept      (* blocked in tcp.Accept() *)
| InWait        (* blocked in wg.Wait() *)
| ListenerReturned.

(** The [for] loop: an error under a cancelled context leaves it, any
    other error is logged and slept over, a connection has its buffers
    set (a failure there is only logged), is counted in [wg] and gets its
    [go runTCPConn].  The boolean tells whether the loop was left. *)
Fixpoint accept_loop (accepts : list accept_result) (l : Listener) : bool * Listener :=
  match accepts with
  | [] => (false, l)
  | AcceptFailed cancelled :: accepts' =>
      if cancelled then (true, l) else accept_loop accepts' l
  | Accepted c _ _ :: accepts' =>
      accept_loop accepts' {| wg := S (wg l); started := started l ++ [c] |}
  end.

(** [wg.Wait()] returns when the counter is zero; nothing in the program
    calls [Done] on this [wg]. *)
Definition runTCPListener (listen_ok : bool) (accepts : list accept_result)
    : listener_end * Listener :=
  let l := {| wg := 0; started := [] |} in
  if negb listen_ok then (ListenerReturned, l)
  else
    let (left, l) := accept_loop accepts l in
    if left then ((if (wg l =? 0)%nat then ListenerReturned else InWait), l)
    else (InAccept, l).

(** The chunks that [Run]'s copy hands to a client connection with room
    [w], out of those the destination delivers: every chunk as long as
    the ones before it fitted, up to and with the first that does not. *)
Fixpoint handed (w : option nat) (chunks : list (list byte)) : list (list byte) :=
  match chunks with
  | [] => []
  | b :: chunks' =>
      match w with
      | None => b :: handed None chunks'
      | Some room =>
          if (length b <=? room)%nat
          then b :: handed (Some (room - length b)%nat) chunks'
          else [b]
      end
  end.

(** The bytes of [bs] that a client connection with room [w] takes. *)
Definition within (w : option nat) (bs : list byte) : list byte :=
  match w with
  | None => bs
  | Some room => firstn room bs
  end.

(** * Properties *)

(** ** Bytes and the constant-time comparison *)

Lemma u8_range (b : byte) : 0 <= u8 b < 256.
Proof.
  unfold u8. pose proof (Byte.to_N_bounded b). lia.
Qed.

Lemma u8_inj (a b : byte) : u8 a = u8 b -> a = b.
Proof.
  unfold u8. intros H. apply N2Z.inj in H.
  pose proof (Byte.of_to_N a) as Ha. rewrite H, Byte.of_to_N in Ha.
  now inversion Ha.
Qed.

Lemma u8_to_byte (v : Z) : u8 (to_byte v) = v mod 256.
Proof.
  unfold to_byte, u8.
  pose proof (Z.mod_pos_bound v 256 ltac:(lia)) as Hb.
  destruct (Byte.of_N (Z.to_N (v mod 256))) as [b|] eqn:E.
  - apply Byte.to_of_N in E. rewrite E. lia.
  - apply Byte.of_N_None_iff in E. lia.
Qed.

Lemma beq_true (a b : byte) : beq a b = true <-> a = b.
Proof.
  unfold beq. split.
  - apply Byte.byte_dec_bl.
  - apply Byte.byte_dec_lb.
Qed.

Lemma beq_false (a b : byte) : beq a b = false <-> a <> b.
Proof.
  rewrite <- beq_true. destruct (beq a b); split; congruence.
Qed.

Lemma beq_refl (a : byte) : beq a a = true.
Proof. now apply beq_true. Qed.

Lemma log2_below_pow2 (n a : Z) : 0 < n -> 0 <= a < 2 ^ n -> Z.log2 a < n.
Proof.
  intros Hn Ha. destruct (Z.eq_dec a 0) as [->|Hne].
  - simpl. lia.
  - apply Z.log2_lt_pow2; lia.
Qed.

Lemma below_pow2_of_log2 (n a : Z) : 0 < n -> 0 <= a -> Z.log2 a < n -> a < 2 ^ n.
Proof.
  intros Hn Ha Hl. destruct (Z.eq_dec a 0) as [->|Hne].
  - apply Z.pow_pos_nonneg; lia.
  - apply Z.log2_lt_pow2; lia.
Qed.

Lemma below_pow2_lor (n a b : Z) :
  0 < n -> 0 <= a < 2 ^ n -> 0 <= b < 2 ^ n -> 0 <= Z.lor a b < 2 ^ n.
Proof.
  intros Hn Ha Hb.
  assert (H0 : 0 <= Z.lor a b) by (apply Z.lor_nonneg; lia).
  split; [exact H0|].
  apply below_pow2_of_log2; trivial.
  rewrite Z.log2_lor by lia.
  apply Z.max_lub_lt; apply log2_below_pow2; trivial.
Qed.

Lemma below_pow2_lxor (n a b : Z) :
  0 < n -> 0 <= a < 2 ^ n -> 0 <= b < 2 ^ n -> 0 <= Z.lxor a b < 2 ^ n.
Proof.
  intros Hn Ha Hb.
  assert (H0 : 0 <= Z.lxor a b) by (apply Z.lxor_nonneg; lia).
  split; [exact H0|].
  apply below_pow2_of_log2; trivial.
  eapply Z.le_lt_trans; [apply Z.log2_lxor; lia|].
  apply Z.max_lub_lt; apply log2_below_pow2; trivial.
Qed.

Lemma ConstantTimeByteEq_zero (v : Z) :
  0 <= v < 256 ->
  subtle.ConstantTimeByteEq v 0 = if v =? 0 then 1 else 0.
Proof.
  intros Hv. unfold subtle.ConstantTimeByteEq.
  rewrite Z.lxor_0_r, Z.shiftr_div_pow2 by lia.
  destruct (Z.eqb_spec v 0) as [->|Hne].
  - reflexivity.
  - rewrite (Z.mod_small (v - 1)) by lia.
    apply Z.div_small. lia.
Qed.

Lemma accumulate_range (x y : list byte) (v : Z) :
  0 <= v < 256 -> 0 <= subtle.accumulate x y v < 256.
Proof.
  revert y v. induction x as [|a x IH]; intros [|b y] v Hv; simpl; try lia.
  apply IH.
  apply (below_pow2_lor 8); try lia.
  apply (below_pow2_lxor 8); try lia; apply u8_range.
Qed.

Lemma accumulate_zero (x y : list byte) (v : Z) :
  length x = length y ->
  (subtle.accumulate x y v = 0 <-> v = 0 /\ x = y).
Proof.
  revert y v. induction x as [|a x IH]; intros [|b y] v Hlen; simpl in *;
    try discriminate.
  - intuition.
  - rewrite IH by congruence.
    rewrite Z.lor_eq_0_iff. split.
    + intros [[Hv Hx] Hxy]. apply Z.lxor_eq in Hx. apply u8_inj in Hx.
      split; congruence.
    + intros [Hv Hxy]. inversion Hxy; subst.
      rewrite Z.lxor_nilpotent. auto.
Qed.

(** [subtle.ConstantTimeCompare] answers 1 on equal slices and 0 on all
    others. *)
Lemma ConstantTimeCompare_eqb (x y : list byte) :
  (subtle.ConstantTimeCompare x y =? 1) = true <-> x = y.
Proof.
  unfold subtle.ConstantTimeCompare.
  destruct (Nat.eqb_spec (length x) (length y)) as [Hlen|Hlen]; cbn [negb].
  - rewrite ConstantTimeByteEq_zero by (apply accumulate_range; lia).
    pose proof (accumulate_zero x y 0 Hlen) as Hz.
    destruct (Z.eqb_spec (subtle.accumulate x y 0) 0) as [E|E].
    + apply Hz in E. intuition.
    + split; [discriminate|]. intros ->. exfalso. apply E, Hz. auto.
  - split; [discriminate|]. intros ->. congruence.
Qed.

(** ** The calls, on a state given by its fields *)

Arguments ReadFull : simpl never.
Arguments Write : simpl never.
Arguments Byte.to_nat : simpl never.

Lemma has_room_less (n m : nat) (w : option nat) :
  has_room (n + m) w -> has_room n w /\ has_room m (less_room n w).
Proof.
  destruct w as [room|]; simpl; [lia|auto].
Qed.

Lemma ReadFull_app (bs r : list byte) cf w s c tr :
  ReadFull (length bs) (mkTCPConn cf (bs ++ r) w s c tr)
  = (Some bs, mkTCPConn cf r w s c (tr ++ [EvReadFull (length bs) bs])).
Proof.
  unfold ReadFull, log, set_clientR; simpl.
  rewrite firstn_app, Nat.sub_diag, firstn_all, skipn_app, Nat.sub_diag, skipn_all.
  simpl. now rewrite app_nil_r, Nat.eqb_refl.
Qed.

Lemma Write_room (b : list byte) cf r w s c tr :
  has_room (length b) w ->
  Write b (mkTCPConn cf r w s c tr)
  = (Some tt, mkTCPConn cf r (less_room (length b) w) s c (tr ++ [EvWrite b (length b)])).
Proof.
  unfold Write, has_room. destruct w as [room|]; simpl; intros H.
  - apply Nat.leb_le in H. now rewrite H.
  - reflexivity.
Qed.

Lemma compares_app (a b : list event) : compares (a ++ b) = compares a ++ compares b.
Proof.
  induction a as [|[] a IH]; simpl; congruence.
Qed.

Lemma writes_app (a b : list event) : writes (a ++ b) = writes a ++ writes b.
Proof.
  induction a as [|[] a IH]; simpl; congruence.
Qed.

Lemma sent_app (a b : list event) : sent (a ++ b) = sent a ++ sent b.
Proof.
  induction a as [|[] a IH]; simpl; rewrite ?IH, ?app_assoc; congruence.
Qed.

(** ** The credential scan *)

Lemma userOk_true username password user :
  userOk username password user = true
  <-> username = bytes (Username user) /\ password = bytes (Password user).
Proof.
  unfold userOk. now rewrite andb_true_iff, !ConstantTimeCompare_eqb.
Qed.

Lemma Auth_users_run (username password : list byte) (users : list User) :
  forall (userFound : bool) cf r w s c tr,
    Auth_users (R := bool) username password users userFound (mkTCPConn cf r w s c tr)
    = (inr (fold_left orb (map (userOk username password) users) userFound),
       mkTCPConn cf r w s c
         (tr ++ flat_map (fun user =>
                   [EvCompare username (bytes (Username user));
                    EvCompare password (bytes (Password user))]) users)).
Proof.
  induction users as [|user users IH]; intros userFound cf r w s c tr.
  - simpl. now rewrite app_nil_r.
  - cbn [Auth_users map fold_left flat_map].
    unfold bind at 1 2, lift, ConstantTimeCompare, log; cbn [trace conf clientR clientW server copier].
    rewrite IH. do 2 f_equal.
    + fold (userOk username password user).
      now destruct (userOk username password user), userFound.
    + now rewrite <- !app_assoc.
Qed.

Lemma fold_orb_existsb (l : list bool) (b : bool) :
  fold_left orb l b = b || existsb (fun x => x) l.
Proof.
  revert b. induction l as [|x l IH]; intros b; simpl.
  - now rewrite orb_false_r.
  - rewrite IH. now rewrite orb_assoc.
Qed.

(** C2. The credential scan of [Auth] makes both comparisons for every
    configured credential, in order and whatever the earlier results were;
    its result is the logical OR of the per-credential results; and it is
    true exactly when some configured credential equals the presented
    username and password byte for byte. *)
Theorem C2_credential_scan_is_exhaustive :
  forall (username password : list byte) (tcp : TCPConn),
    let users := Users (conf tcp) in
    let out := Auth_users (R := bool) username password users false tcp in
    compares (trace (snd out))
    = compares (trace tcp)
      ++ flat_map (fun user => [(username, bytes (Username user));
                                (password, bytes (Password user))]) users
    /\ fst out = inr (fold_left orb (map (userOk username password) users) false)
    /\ (fst out = inr true
        <-> exists user, In user users
                         /\ bytes (Username user) = username
                         /\ bytes (Password user) = password).
Proof.
  intros username password [cf r w s c tr]. cbv zeta. cbn [conf].
  rewrite Auth_users_run. cbn [fst snd trace].
  set (users := Users cf).
  split; [|split].
  - rewrite compares_app. f_equal. clear.
    induction users as [|u users IH]; simpl; congruence.
  - reflexivity.
  - rewrite fold_orb_existsb. simpl. split.
    + intros H. injection H as H. apply existsb_exists in H.
      destruct H as [b [Hin Hb]]. subst b. apply in_map_iff in Hin.
      destruct Hin as [u [Hu Hin]]. apply userOk_true in Hu.
      exists u. intuition.
    + intros [u [Hin [Hn Hp]]]. f_equal. apply existsb_exists.
      exists true. split; [|reflexivity]. apply in_map_iff.
      exists u. split; [|exact Hin]. apply userOk_true. auto.
Qed.

(** ** Stepping through a body *)

Lemma Auth_method_absent (methods : list byte) :
  ~ In x02 methods -> Auth_method methods = xff.
Proof.
  induction methods as [|m methods IH]; simpl; intros H; [reflexivity|].
  destruct (beq m x02) eqn:E.
  - apply beq_true in E. tauto.
  - apply IH. tauto.
Qed.

Lemma Auth_method_present (methods : list byte) :
  In x02 methods -> Auth_method methods = x02.
Proof.
  induction methods as [|m methods IH]; simpl; intros H; [tauto|].
  destruct (beq m x02) eqn:E.
  - now apply beq_true in E.
  - apply beq_false in E. destruct H; [congruence|auto].
Qed.

Section Steps.

Context {R A B : Type} (r0 : R).

Lemma step_ReadByte (k : byte -> Body R B) b r cf w s c tr :
  bind (orReturn ReadByte r0) k (mkTCPConn cf (b :: r) w s c tr)
  = k b (mkTCPConn cf r w s c (tr ++ [EvReadByte (Some b)])).
Proof. reflexivity. Qed.

Lemma step_ReadFull (k : list byte -> Body R B) n bs r cf w s c tr :
  length bs = n ->
  bind (orReturn (ReadFull n) r0) k (mkTCPConn cf (bs ++ r) w s c tr)
  = k bs (mkTCPConn cf r w s c (tr ++ [EvReadFull n bs])).
Proof.
  intros <-. unfold bind, orReturn. now rewrite ReadFull_app.
Qed.

Lemma step_binary_Read {V} (decode : list byte -> V) (k : V -> Body R B)
    n bs r cf w s c tr :
  length bs = n ->
  bind (orReturn (binary_Read n decode) r0) k (mkTCPConn cf (bs ++ r) w s c tr)
  = k (decode bs) (mkTCPConn cf r w s c (tr ++ [EvReadFull n bs])).
Proof.
  intros <-. unfold bind, orReturn, binary_Read. now rewrite ReadFull_app.
Qed.

Lemma step_Write (k : unit -> Body R B) b r cf w s c tr :
  has_room (length b) w ->
  bind (orReturn (Write b) r0) k (mkTCPConn cf r w s c tr)
  = k tt (mkTCPConn cf r (less_room (length b) w) s c (tr ++ [EvWrite b (length b)])).
Proof.
  intros H. unfold bind, orReturn. now rewrite Write_room.
Qed.

Lemma step_returnIf_false (k : unit -> Body R B) tcp :
  bind (returnIf false r0) k tcp = k tt tcp.
Proof. reflexivity. Qed.

Lemma step_returnIf_true (k : unit -> Body R B) tcp :
  bind (returnIf true r0) k tcp = (inl r0, tcp).
Proof. reflexivity. Qed.

End Steps.

Lemma has_room_dec (n : nat) (w : option nat) : {has_room n w} + {~ has_room n w}.
Proof.
  destruct w as [room|]; simpl; [apply le_dec|left; exact I].
Defined.

Lemma less_room_less (n m : nat) (w : option nat) :
  less_room m (less_room n w) = less_room (n + m) w.
Proof.
  destruct w as [room|]; simpl; [f_equal; lia|reflexivity].
Qed.

Lemma Write_short (b : list byte) cf r w s c tr :
  ~ has_room (length b) w ->
  exists n, (n < length b)%nat
    /\ Write b (mkTCPConn cf r w s c tr)
       = (None, mkTCPConn cf r (Some 0%nat) s c (tr ++ [EvWrite b n])).
Proof.
  unfold Write, has_room. destruct w as [room|]; simpl; intros H; [|tauto].
  exists room. split; [lia|].
  destruct (Nat.leb_spec (length b) room); [lia|reflexivity].
Qed.

Ltac step :=
  first
    [ rewrite step_ReadByte
    | rewrite step_ReadFull by (auto; fail)
    | rewrite step_binary_Read by reflexivity
    | rewrite step_Write by (simpl; auto; fail)
    | rewrite step_returnIf_false
    | rewrite step_returnIf_true ].

Ltac trace_nf := rewrite <- ?app_assoc; cbn [app].

(** ** The greeting *)

(** A greeting of another version: nothing but the one byte is read. *)
Lemma Auth_bad_version (ver : byte) rest cf w s c tr :
  ver <> x05 ->
  Auth (mkTCPConn cf (ver :: rest) w s c tr)
  = (false, mkTCPConn cf rest w s c (tr ++ [EvReadByte (Some ver)])).
Proof.
  intros H. apply beq_false in H.
  unfold Auth, func. step. rewrite H. cbn [negb]. now step.
Qed.

(** A greeting that does not offer method 2: the reply [05 FF] is the
    last call of [Auth]. *)
Lemma Auth_no_method (nmethod : byte) (methods rest : list byte) cf w s c tr :
  length methods = Byte.to_nat nmethod ->
  ~ In x02 methods ->
  exists n w',
    Auth (mkTCPConn cf (x05 :: nmethod :: methods ++ rest) w s c tr)
    = (false,
       mkTCPConn cf rest w' s c
         (tr ++ [EvReadByte (Some x05); EvReadByte (Some nmethod);
                 EvReadFull (length methods) methods; EvWrite [x05; xff] n]))
    /\ (has_room 2 w -> n = 2%nat).
Proof.
  intros Hlen Habsent.
  unfold Auth, func. step. rewrite beq_refl. cbn [negb]. do 3 step.
  cbv zeta. rewrite (Auth_method_absent _ Habsent).
  destruct (has_room_dec 2 w) as [Hw|Hw].
  - step. rewrite beq_refl. step.
    exists 2%nat, (less_room 2 w). split; [|reflexivity].
    rewrite <- Hlen. trace_nf; reflexivity.
  - destruct (Write_short [x05; xff] cf rest w s c
                (((tr ++ [EvReadByte (Some x05)]) ++ [EvReadByte (Some nmethod)])
                 ++ [EvReadFull (Byte.to_nat nmethod) methods]) Hw) as (n & Hn & E).
    unfold bind at 1, orReturn at 1. rewrite E.
    exists n, (Some 0%nat). split; [|tauto].
    rewrite <- Hlen. trace_nf; reflexivity.
Qed.

(** The greeting that selects method 2, up to its reply. *)
Lemma Auth_greeting_accepted {A} (k : Body bool A) (nmethod : byte)
    (methods rest : list byte) cf w s c tr :
  length methods = Byte.to_nat nmethod ->
  In x02 methods ->
  has_room 2 w ->
  (ver <- orReturn ReadByte false ;;
   returnIf (negb (beq ver x05)) false ;;
   nmethod <- orReturn ReadByte false ;;
   methods <- orReturn (ReadFull (Byte.to_nat nmethod)) false ;;
   let method := Auth_method methods in
   let b := [x05; method] in
   orReturn (Write b) false ;;
   returnIf (beq method xff) false ;;
   k)%body (mkTCPConn cf (x05 :: nmethod :: methods ++ rest) w s c tr)
  = k (mkTCPConn cf rest (less_room 2 w) s c
         (tr ++ [EvReadByte (Some x05); EvReadByte (Some nmethod);
                 EvReadFull (length methods) methods; EvWrite [x05; x02] 2])).
Proof.
  intros Hlen Hin Hw.
  step. rewrite beq_refl. cbn [negb]. do 3 step.
  cbv zeta. rewrite (Auth_method_present _ Hin).
  step. change (beq x02 xff) with false. step.
  rewrite <- Hlen. trace_nf; reflexivity.
Qed.

(** ** The sub-negotiation *)

Lemma Auth_zero_ulen (nmethod : byte) (methods rest : list byte) cf w s c tr :
  length methods = Byte.to_nat nmethod ->
  In x02 methods ->
  has_room 2 w ->
  Auth (mkTCPConn cf (x05 :: nmethod :: methods ++ x01 :: x00 :: rest) w s c tr)
  = (false,
     mkTCPConn cf rest (less_room 2 w) s c
       (tr ++ greeting_events nmethod methods
           ++ [EvReadByte (Some x01); EvReadByte (Some x00)])).
Proof.
  intros Hlen Hin Hw. unfold Auth, func.
  rewrite Auth_greeting_accepted by assumption.
  step. change (beq x01 x01) with true. cbn [negb]. do 2 step.
  rewrite beq_refl. step.
  unfold greeting_events. trace_nf. reflexivity.
Qed.

Lemma Auth_zero_plen (nmethod ulen : byte) (methods username rest : list byte)
    cf w s c tr :
  length methods = Byte.to_nat nmethod ->
  In x02 methods ->
  has_room 2 w ->
  ulen <> x00 ->
  length username = Byte.to_nat ulen ->
  Auth (mkTCPConn cf (x05 :: nmethod :: methods
                        ++ x01 :: ulen :: username ++ x00 :: rest) w s c tr)
  = (false,
     mkTCPConn cf rest (less_room 2 w) s c
       (tr ++ greeting_events nmethod methods
           ++ [EvReadByte (Some x01); EvReadByte (Some ulen);
               EvReadFull (length username) username; EvReadByte (Some x00)])).
Proof.
  intros Hlen Hin Hw Hulen Hu. apply beq_false in Hulen. unfold Auth, func.
  rewrite Auth_greeting_accepted by assumption.
  step. change (beq x01 x01) with true. cbn [negb]. do 2 step.
  rewrite Hulen. do 3 step. rewrite beq_refl. step.
  unfold greeting_events. rewrite <- Hu. trace_nf. reflexivity.
Qed.

Lemma Auth_subnegotiation (nmethod ulen plen : byte)
    (methods username password rest : list byte) cf w s c tr :
  length methods = Byte.to_nat nmethod ->
  In x02 methods ->
  ulen <> x00 -> length username = Byte.to_nat ulen ->
  plen <> x00 -> length password = Byte.to_nat plen ->
  has_room 4 w ->
  let userFound := fold_left orb (map (userOk username password) (Users cf)) false in
  Auth (mkTCPConn cf (x05 :: nmethod :: methods
                        ++ x01 :: ulen :: username ++ plen :: password ++ rest)
                  w s c tr)
  = (userFound,
     mkTCPConn cf rest (less_room 4 w) s c
       (tr ++ greeting_events nmethod methods
           ++ [EvReadByte (Some x01);
               EvReadByte (Some ulen); EvReadFull (length username) username;
               EvReadByte (Some plen); EvReadFull (length password) password]
           ++ scan_events username password (Users cf)
           ++ [EvWrite [x01; if userFound then x00 else x01] 2])).
Proof.
  intros Hlen Hin Hulen Hu Hplen Hp Hw userFound.
  apply beq_false in Hulen, Hplen.
  destruct (has_room_less 2 2 w Hw) as [Hw1 Hw2].
  unfold Auth, func.
  rewrite Auth_greeting_accepted by assumption.
  step. change (beq x01 x01) with true. cbn [negb]. do 2 step.
  rewrite Hulen. do 3 step. rewrite Hplen. do 2 step.
  unfold bind at 1. cbn [conf]. rewrite Auth_users_run. fold userFound.
  cbv zeta. step. rewrite less_room_less.
  unfold greeting_events, scan_events. rewrite <- Hu, <- Hp.
  destruct userFound; cbn [negb nth]; trace_nf;
    [change (beq x00 x00) with true | change (beq x01 x00) with false];
    unfold Return; cbn [Nat.add]; reflexivity.
Qed.

(** ** The address codec *)

Lemma Uint16_PutUint16 (v : Z) (b0 b1 : byte) :
  0 <= v < 2 ^ 16 ->
  binary.PutUint16 v = [b0; b1] ->
  binary.Uint16 b0 b1 = v.
Proof.
  intros Hv E. unfold binary.PutUint16 in E. inversion E; subst b0 b1; clear E.
  unfold binary.Uint16. rewrite !u8_to_byte.
  change 256 with (2 ^ 8).
  apply Z.bits_inj'. intros n Hn.
  rewrite Z.lor_spec.
  destruct (Z.ltb_spec n 8) as [Hlt|Hge].
  - rewrite Z.mod_pow2_bits_low by lia.
    rewrite Z.shiftl_spec_low by lia. apply orb_false_r.
  - rewrite Z.mod_pow2_bits_high by lia.
    rewrite Z.shiftl_spec by lia. cbn [orb].
    destruct (Z.ltb_spec (n - 8) 8) as [Hlt|Hge'].
    + rewrite Z.mod_pow2_bits_low by lia.
      rewrite Z.shiftr_spec by lia. f_equal. lia.
    + rewrite Z.mod_pow2_bits_high by lia.
      symmetry. rewrite <- (Z.mod_small v (2 ^ 16)) by lia.
      apply Z.mod_pow2_bits_high. lia.
Qed.

Lemma copy_full (dst src : list byte) :
  length src = length dst -> copy dst src = src.
Proof.
  intros H. unfold copy.
  rewrite <- H, firstn_all, H, skipn_all. apply app_nil_r.
Qed.

(** ** The request *)

Lemma step_lift {R A B} (call : TCPConn -> A * TCPConn) (k : A -> Body R B) tcp :
  bind (lift call) k tcp = k (fst (call tcp)) (snd (call tcp)).
Proof.
  unfold bind, lift. now destruct (call tcp).
Qed.

Section Request.

Variable DialTCP : net.TCPAddr -> option net.TCPConn.

Lemma Req_bad_header (ver cmd rsv atyp : byte) rest cf w s c tr :
  ver <> x05 \/ cmd <> x01 \/ rsv <> x00 \/ atyp <> x01 ->
  Req DialTCP (mkTCPConn cf (ver :: cmd :: rsv :: atyp :: rest) w s c tr)
  = (false, mkTCPConn cf rest w s c (tr ++ [EvReadFull 4 [ver; cmd; rsv; atyp]])).
Proof.
  intros H. unfold Req, func.
  change (ver :: cmd :: rsv :: atyp :: rest) with ([ver; cmd; rsv; atyp] ++ rest).
  step. cbn [decode_req nth Ver Cmd Rsv Atyp].
  destruct (beq ver x05) eqn:Ever; cbn [negb]; [|now step].
  destruct (beq cmd x01) eqn:Ecmd; cbn [negb]; [|now do 2 step].
  destruct (beq rsv x00) eqn:Ersv; cbn [negb]; [|now do 3 step].
  destruct (beq atyp x01) eqn:Eatyp; cbn [negb]; [|now do 4 step].
  apply beq_true in Ever, Ecmd, Ersv, Eatyp. tauto.
Qed.

Lemma Req_dial_failure (a0 a1 a2 a3 p0 p1 : byte) rest cf w s c tr :
  DialTCP {| net.IP := [a0; a1; a2; a3]; net.Port := binary.Uint16 p0 p1 |} = None ->
  exists n w',
    Req DialTCP (mkTCPConn cf ([x05; x01; x00; x01] ++ [a0; a1; a2; a3; p0; p1] ++ rest)
                           w s c tr)
    = (false,
       mkTCPConn cf rest w' s c
         (tr ++ request_events a0 a1 a2 a3 p0 p1 false
             ++ [EvWrite [x05; x01; x00; x01] n]))
    /\ (has_room 4 w -> n = 4%nat).
Proof.
  intros Hdial. unfold Req, func.
  step. cbn [decode_req nth Ver Cmd Rsv Atyp].
  change (beq x05 x05) with true. change (beq x01 x01) with true.
  change (beq x00 x00) with true. cbn [negb]. do 5 step.
  cbn [decode_ipv4Addr firstn nth Addr Port]. cbv zeta.
  rewrite step_lift. unfold Dial. rewrite Hdial. unfold log. cbn [fst snd trace conf clientR clientW server copier].
  rewrite step_lift. unfold binary_Write, encode_res; cbn [res_Ver Rep res_Rsv res_Atyp].
  unfold Return, request_events.
  destruct (has_room_dec 4 w) as [Hw|Hw].
  - rewrite Write_room by exact Hw. cbn [snd].
    exists 4%nat, (less_room 4 w). split; [|reflexivity].
    trace_nf. reflexivity.
  - match goal with |- context [Write ?b (mkTCPConn ?cf ?r ?w ?s ?c ?t)] =>
      destruct (Write_short b cf r w s c t Hw) as (n & Hn & E) end.
    rewrite E. cbn [snd].
    exists n, (Some 0%nat). split; [|tauto].
    trace_nf. reflexivity.
Qed.

Lemma Req_success (a0 a1 a2 a3 p0 p1 : byte) (srv : net.TCPConn) rest cf w s c tr :
  DialTCP {| net.IP := [a0; a1; a2; a3]; net.Port := binary.Uint16 p0 p1 |} = Some srv ->
  has_room 10 w ->
  let laddr := net.LocalAddr srv in
  let bound := encode_ipv4Addr
                 {| Addr := copy [x00; x00; x00; x00] (net.To4 (net.IP laddr));
                    Port := net.Port laddr mod 2 ^ 16 |} in
  length (net.To4 (net.IP laddr)) = 4%nat ->
  Req DialTCP (mkTCPConn cf ([x05; x01; x00; x01] ++ [a0; a1; a2; a3; p0; p1] ++ rest)
                         w s c tr)
  = (true,
     mkTCPConn cf rest (less_room 10 w) (Some srv) c
       (tr ++ request_events a0 a1 a2 a3 p0 p1 true
           ++ [EvWrite [x05; x00; x00; x01] 4; EvWrite bound 6])).
Proof.
  intros Hdial Hw laddr bound H4.
  destruct (has_room_less 4 6 w Hw) as [Hw1 Hw2].
  assert (Hb : length bound = 6%nat).
  { unfold bound, encode_ipv4Addr; cbn [Addr Port binary.PutUint16].
    rewrite copy_full by exact H4. rewrite length_app, H4. reflexivity. }
  unfold Req, func.
  step. cbn [decode_req nth Ver Cmd Rsv Atyp].
  change (beq x05 x05) with true. change (beq x01 x01) with true.
  change (beq x00 x00) with true. cbn [negb]. do 5 step.
  cbn [decode_ipv4Addr firstn nth Addr Port]. cbv zeta.
  rewrite step_lift. unfold Dial. rewrite Hdial. unfold log. cbn [fst snd trace conf clientR clientW server copier].
  unfold binary_Write at 1, encode_res; cbn [res_Ver Rep res_Rsv res_Atyp].
  step. rewrite step_lift. unfold assign_server, set_server.
  cbn [fst snd trace conf clientR clientW server copier].
  unfold binary_Write. fold laddr. fold bound.
  rewrite step_Write by (rewrite Hb; exact Hw2).
  rewrite Hb, less_room_less. unfold Return, request_events.
  trace_nf. reflexivity.
Qed.

End Request.

(** ** What a handshake can and cannot do *)

Section Preorder.

(** A reflexive and transitive relation that every call on the client
    streams respects is respected by [Auth]; with the dial and the
    assignment of [tcp.server], by [Req]. *)
Variable rel : TCPConn -> TCPConn -> Prop.
Hypothesis rel_refl : forall tcp, rel tcp tcp.
Hypothesis rel_trans : forall a b c, rel a b -> rel b c -> rel a c.

Lemma keeps_pure {R A} (a : A) : keeps rel (pure (R := R) a).
Proof. intros tcp. apply rel_refl. Qed.

Lemma keeps_Return {R A} (r : R) : keeps rel (Return (A := A) r).
Proof. intros tcp. apply rel_refl. Qed.

Lemma keeps_bind {R A B} (m : Body R A) (k : A -> Body R B) :
  keeps rel m -> (forall a, keeps rel (k a)) -> keeps rel (bind m k).
Proof.
  intros Hm Hk tcp. unfold bind. specialize (Hm tcp).
  destruct (m tcp) as [[r|a] tcp']; cbn [snd] in *; [exact Hm|].
  eapply rel_trans; [exact Hm|apply Hk].
Qed.

Lemma keeps_returnIf {R} (b : bool) (r : R) : keeps rel (returnIf b r).
Proof. destruct b; [apply keeps_Return|apply keeps_pure]. Qed.

Lemma keeps_orReturn {R A} (f : TCPConn -> option A * TCPConn) (r : R) :
  keeps_call rel f -> keeps rel (orReturn f r).
Proof.
  intros H tcp. unfold orReturn. specialize (H tcp).
  now destruct (f tcp) as [[a|] tcp'].
Qed.

Lemma keeps_lift {R A} (f : TCPConn -> A * TCPConn) :
  keeps_call rel f -> keeps rel (lift (R := R) f).
Proof.
  intros H tcp. unfold lift. specialize (H tcp).
  now destruct (f tcp) as [a tcp'].
Qed.

Lemma keeps_func {R} (m : Body R R) : keeps rel m -> keeps_call rel (func m).
Proof.
  intros H tcp. unfold func. specialize (H tcp).
  now destruct (m tcp) as [[r|r] tcp'].
Qed.

Hypothesis rel_ReadByte : keeps_call rel ReadByte.
Hypothesis rel_ReadFull : forall n, keeps_call rel (ReadFull n).
Hypothesis rel_Write : forall b, keeps_call rel (Write b).
Hypothesis rel_Compare : forall x y, keeps_call rel (ConstantTimeCompare x y).

Lemma keeps_binary_Read {V} n (decode : list byte -> V) :
  keeps_call rel (binary_Read n decode).
Proof.
  intros tcp. unfold binary_Read. pose proof (rel_ReadFull n tcp) as H.
  now destruct (ReadFull n tcp) as [[b|] tcp'].
Qed.

Lemma keeps_binary_Write {V} (encode : V -> list byte) v :
  keeps_call rel (binary_Write encode v).
Proof. apply rel_Write. Qed.

Ltac keeps :=
  repeat first
    [ apply keeps_bind; [|intros ?]
    | progress cbv zeta
    | match goal with
      | |- keeps _ (if ?b then _ else _) => destruct b
      | |- keeps _ (match ?d with Some _ => _ | None => _ end) => destruct d
      end
    | solve [auto using keeps_pure, keeps_Return, keeps_returnIf, keeps_orReturn,
               keeps_lift, keeps_binary_Read, keeps_binary_Write] ].

Lemma keeps_Auth_users {R} username password users userFound :
  keeps rel (Auth_users (R := R) username password users userFound).
Proof.
  revert userFound. induction users as [|user users IH]; intros userFound;
    cbn [Auth_users]; keeps.
Qed.

Lemma keeps_Auth : keeps_call rel Auth.
Proof.
  apply keeps_func. keeps.
  intros tcp. apply keeps_Auth_users.
Qed.

Variable DialTCP : net.TCPAddr -> option net.TCPConn.
Hypothesis rel_Dial : forall raddr, keeps_call rel (Dial DialTCP raddr).
Hypothesis rel_assign : forall srv, keeps_call rel (assign_server srv).

Lemma keeps_Req : keeps_call rel (Req DialTCP).
Proof.
  apply keeps_func. keeps.
Qed.

End Preorder.

Lemma extends_refl tcp : extends tcp tcp.
Proof.
  split; [reflexivity|]. exists []. now rewrite app_nil_r.
Qed.

Lemma extends_trans a b c : extends a b -> extends b c -> extends a c.
Proof.
  intros [Hc1 (e1 & E1 & F1)] [Hc2 (e2 & E2 & F2)]. split; [congruence|].
  exists (e1 ++ e2). rewrite E2, E1, app_assoc. split; [reflexivity|].
  apply Forall_app. auto.
Qed.

Lemma extends_log e tcp : handshake e -> extends tcp (log e tcp).
Proof.
  intros H. split; [reflexivity|]. exists [e]. auto.
Qed.

Lemma extends_ReadByte : keeps_call extends ReadByte.
Proof.
  intros tcp. unfold ReadByte. destruct (clientR tcp); cbn [snd].
  - now apply extends_log.
  - split; [reflexivity|]. eexists [_]. split; [reflexivity|].
    repeat constructor.
Qed.

Lemma extends_ReadFull n : keeps_call extends (ReadFull n).
Proof.
  intros tcp. unfold ReadFull.
  destruct (length (firstn n (clientR tcp)) =? n)%nat; cbn [snd];
    (split; [reflexivity|]; eexists [_]; split; [reflexivity|]);
    repeat constructor.
Qed.

Lemma extends_Write b : keeps_call extends (Write b).
Proof.
  intros tcp. unfold Write. destruct (clientW tcp) as [room|]; cbn [snd].
  - destruct (length b <=? room)%nat; cbn [snd];
      (split; [reflexivity|]; eexists [_]; split; [reflexivity|]);
      repeat constructor.
  - now apply extends_log.
Qed.

Lemma extends_Compare x y : keeps_call extends (ConstantTimeCompare x y).
Proof. intros tcp. now apply extends_log. Qed.

Lemma extends_Dial DialTCP raddr : keeps_call extends (Dial DialTCP raddr).
Proof.
  intros tcp. unfold Dial. destruct (DialTCP raddr); now apply extends_log.
Qed.

Lemma extends_assign srv : keeps_call extends (assign_server srv).
Proof.
  intros tcp. split; [reflexivity|]. exists []. cbn. now rewrite app_nil_r.
Qed.

(** [Auth] and [Req] make handshake calls only. *)
Lemma Auth_extends : keeps_call extends Auth.
Proof.
  exact (keeps_Auth extends extends_refl extends_trans extends_ReadByte
           extends_ReadFull extends_Write extends_Compare).
Qed.

Lemma Req_extends DialTCP : keeps_call extends (Req DialTCP).
Proof.
  exact (keeps_Req extends extends_refl extends_trans extends_ReadFull
           extends_Write DialTCP (extends_Dial DialTCP) extends_assign).
Qed.

Lemma Write_server b tcp : server (snd (Write b tcp)) = server tcp.
Proof.
  unfold Write. destruct (clientW tcp) as [room|]; [|reflexivity].
  now destruct (length b <=? room)%nat.
Qed.

(** [Auth] leaves [tcp.server] alone. *)
Lemma Auth_same_server : keeps_call same_server Auth.
Proof.
  apply keeps_Auth; unfold same_server, keeps_call.
  - reflexivity.
  - intros; congruence.
  - intros tcp. unfold ReadByte. now destruct (clientR tcp).
  - intros n tcp. unfold ReadFull.
    now destruct (length (firstn n (clientR tcp)) =? n)%nat.
  - intros b tcp. apply Write_server.
  - reflexivity.
Qed.

(** ** The session *)

Lemma handshake_not_close e : handshake e -> not_close e.
Proof. now destruct e. Qed.

Lemma closes_server_app a b : closes_server (a ++ b) = (closes_server a + closes_server b)%nat.
Proof.
  induction a as [|[] a IH]; simpl; congruence.
Qed.

Lemma closes_client_app a b : closes_client (a ++ b) = (closes_client a + closes_client b)%nat.
Proof.
  induction a as [|[] a IH]; simpl; congruence.
Qed.

Lemma closes_none evs :
  Forall not_close evs -> closes_server evs = 0%nat /\ closes_client evs = 0%nat.
Proof.
  induction 1 as [|e evs He _ IH]; [auto|].
  destruct e; simpl in *; tauto.
Qed.

Lemma handshake_no_Run evs : Forall handshake evs -> ~ In EvRun evs.
Proof.
  intros H Hin. rewrite Forall_forall in H. exact (H _ Hin).
Qed.

Lemma Write_trace b tcp : exists n, trace (snd (Write b tcp)) = trace tcp ++ [EvWrite b n].
Proof.
  unfold Write. destruct (clientW tcp) as [room|]; [|now eexists].
  destruct (length b <=? room)%nat; now eexists.
Qed.

(** [Req] answers true only with [tcp.server] assigned. *)
Lemma Req_true_server DialTCP tcp :
  fst (Req DialTCP tcp) = true -> server (snd (Req DialTCP tcp)) <> None.
Proof.
  unfold Req, func, bind, orReturn, returnIf, lift, Return, pure.
  repeat match goal with
         | |- context [match ?x with _ => _ end] =>
             lazymatch x with
             | context [match _ with _ => _ end] => fail
             | _ => destruct x eqn:?
             end
         end; cbn [fst snd]; try discriminate.
  intros _.
  match goal with
  | H : binary_Write encode_ipv4Addr _ _ = (_, ?t) |- server ?t <> None =>
      apply (f_equal snd) in H; cbn [snd] in H; rewrite <- H
  end.
  unfold binary_Write. rewrite Write_server.
  match goal with
  | H : assign_server _ _ = (_, ?t) |- server ?t <> None =>
      apply (f_equal snd) in H; cbn [snd] in H; rewrite <- H
  end.
  discriminate.
Qed.

Section Session.

Variable DialTCP : net.TCPAddr -> option net.TCPConn.
Variable relay : list relay_event.

Lemma goroutine_copy_relays more accepted tcp :
  server (goroutine_copy more accepted tcp) = server tcp
  /\ exists evs, trace (goroutine_copy more accepted tcp) = trace tcp ++ evs
                 /\ Forall not_close evs.
Proof.
  unfold goroutine_copy.
  destruct (copier tcp); cbn [negb];
    [|split; [reflexivity|exists []; now rewrite app_nil_r]].
  destruct (firstn (S more) (clientR tcp)) as [|b0 b].
  - split; [reflexivity|]. exists [EvGoroutineEnd]. split; [reflexivity|].
    repeat constructor.
  - destruct accepted; (split; [reflexivity|]); cbn [trace log set_clientR set_copier].
    + eexists [_]. split; [reflexivity|]. repeat constructor.
    + eexists [_; _]. cbn [trace log set_clientR set_copier].
      rewrite <- app_assoc. split; [reflexivity|]. repeat constructor.
Qed.

Lemma Run_copy_relays events : forall tcp,
  server (snd (Run_copy events tcp)) = server tcp
  /\ exists evs, trace (snd (Run_copy events tcp)) = trace tcp ++ evs
                 /\ Forall not_close evs.
Proof.
  induction events as [|ev events IH]; intros tcp; cbn [Run_copy].
  - split; [reflexivity|]. exists []. now rewrite app_nil_r.
  - destruct ev as [more accepted|b|].
    + destruct (IH (goroutine_copy more accepted tcp)) as [Hs (e2 & E2 & F2)].
      destruct (goroutine_copy_relays more accepted tcp) as [Hs1 (e1 & E1 & F1)].
      split; [congruence|].
      exists (e1 ++ e2). rewrite E2, E1, app_assoc. split; [reflexivity|].
      apply Forall_app. auto.
    + pose proof (Write_server b tcp) as Hs1.
      destruct (Write_trace b tcp) as [n E1].
      destruct (Write b tcp) as [[[]|] tcp'] eqn:EW; cbn [snd] in *.
      * destruct (IH tcp') as [Hs (e2 & E2 & F2)].
        split; [congruence|].
        exists ([EvWrite b n] ++ e2). rewrite E2, E1, app_assoc.
        split; [reflexivity|]. apply Forall_app. split; [|exact F2].
        repeat constructor.
      * split; [exact Hs1|]. exists [EvWrite b n]. split; [exact E1|].
        repeat constructor.
    + split; [reflexivity|]. exists []. now rewrite app_nil_r.
Qed.


Lemma Close_trace tcp :
  trace (Close tcp)
  = trace tcp ++ (match server tcp with Some _ => [EvCloseServer] | None => [] end)
              ++ [EvCloseClient].
Proof.
  unfold Close. destruct (server tcp); cbn [trace log].
  - now rewrite <- app_assoc.
  - reflexivity.
Qed.

End Session.

Section SessionLevel.

Variable DialTCP : net.TCPAddr -> option net.TCPConn.
Variable relay : list relay_event.
Variable c : ClientConn.
Variable cf : Config.

Local Abbreviation tcp1 := (snd (Auth (NewTCPConn c cf))).
Local Abbreviation tcp2 := (snd (Req DialTCP (snd (Auth (NewTCPConn c cf))))).

Lemma after_Auth :
  server tcp1 = None /\ copier tcp1 = false /\ Forall handshake (trace tcp1).
Proof.
  destruct (Auth_extends (NewTCPConn c cf)) as [Hc (evs & E & F)].
  pose proof (Auth_same_server (NewTCPConn c cf)) as Hs.
  rewrite Hs, Hc, E. auto.
Qed.

Lemma after_Req :
  copier tcp2 = false /\ Forall handshake (trace tcp2).
Proof.
  destruct after_Auth as (_ & Hc1 & F1).
  destruct (Req_extends DialTCP tcp1) as [Hc (evs & E & F)].
  rewrite Hc, E. split; [exact Hc1|].
  apply Forall_app. auto.
Qed.

Lemma Close_copier tcp : copier (Close tcp) = copier tcp.
Proof.
  unfold Close. now destruct (server tcp).
Qed.

Lemma session_Auth_false :
  fst (Auth (NewTCPConn c cf)) = false ->
  session DialTCP relay c cf = log EvCloseClient tcp1.
Proof.
  intros H. destruct after_Auth as (Hs & Hc & _).
  unfold session, runTCPConn.
  destruct (Auth (NewTCPConn c cf)) as [ok t1]. cbn [fst snd] in *. subst ok.
  cbn [negb]. unfold Close, goroutine_wakes. rewrite Hs.
  cbn [copier log]. now rewrite Hc.
Qed.

Lemma session_Req_false :
  fst (Auth (NewTCPConn c cf)) = true ->
  fst (Req DialTCP tcp1) = false ->
  session DialTCP relay c cf = Close tcp2.
Proof.
  intros HA HR. destruct after_Req as (Hc & _).
  unfold session, runTCPConn.
  destruct (Auth (NewTCPConn c cf)) as [ok t1]. cbn [fst snd] in *. subst ok.
  cbn [negb].
  destruct (Req DialTCP t1) as [ok t2]. cbn [fst snd] in *. subst ok.
  cbn [negb]. unfold goroutine_wakes.
  now rewrite Close_copier, Hc.
Qed.

Lemma session_relays :
  fst (Auth (NewTCPConn c cf)) = true ->
  fst (Req DialTCP tcp1) = true ->
  session DialTCP relay c cf
  = goroutine_wakes (if fst (Run relay tcp2) then Close (snd (Run relay tcp2))
                     else snd (Run relay tcp2)).
Proof.
  intros HA HR.
  unfold session, runTCPConn.
  destruct (Auth (NewTCPConn c cf)) as [ok t1]. cbn [fst snd] in *. subst ok.
  cbn [negb].
  destruct (Req DialTCP t1) as [ok t2]. cbn [fst snd] in *. subst ok.
  cbn [negb]. now destruct (Run relay t2) as [[] t3].
Qed.

End SessionLevel.

(** * The claims *)


Lemma scan_events_sent username password users :
  sent (scan_events username password users) = [].
Proof.
  induction users as [|u users IH]; [reflexivity|exact IH].
Qed.

(** C1 (the code departs from it).  In an authenticated session whose
    CONNECT request is well formed and whose dial fails, [Req] hands the
    client one buffer, the four header bytes [05 01 00 01], and the
    session ends with the close of the client stream, [Run] not entered:
    the six bytes of bound address and port, which the branch of a
    successful dial writes after the header, are never written. *)
Theorem C1_dial_failure_reply_is_header_only :
  forall DialTCP relay (c : ClientConn) (cf : Config)
         (a0 a1 a2 a3 p0 p1 : byte) (rest : list byte),
    let authed := Auth (NewTCPConn c cf) in
    fst authed = true ->
    clientR (snd authed) = [x05; x01; x00; x01] ++ [a0; a1; a2; a3; p0; p1] ++ rest ->
    DialTCP {| net.IP := [a0; a1; a2; a3]; net.Port := binary.Uint16 p0 p1 |} = None ->
    exists n,
      trace (session DialTCP relay c cf)
      = trace (snd authed)
        ++ request_events a0 a1 a2 a3 p0 p1 false
        ++ [EvWrite [x05; x01; x00; x01] n; EvCloseClient]
      /\ (has_room 4 (clientW (snd authed)) -> n = 4%nat).
Proof.
  intros DialTCP relay c cf a0 a1 a2 a3 p0 p1 rest authed HA HR Hdial.
  destruct (after_Auth c cf) as (Hs & _ & _). fold authed in Hs.
  pose proof (session_Req_false DialTCP relay c cf HA) as ES. fold authed in ES.
  destruct (snd authed) as [cf' r w s co tr] eqn:E1.
  cbn [clientR server clientW trace] in *. subst r s.
  destruct (Req_dial_failure DialTCP a0 a1 a2 a3 p0 p1 rest cf' w None co tr Hdial)
    as (n & w' & EQ & Hn).
  exists n. split; [|exact Hn].
  rewrite ES by (rewrite EQ; reflexivity).
  rewrite EQ. cbn [snd]. unfold Close. cbn [server log trace].
  now rewrite <- !app_assoc.
Qed.

Lemma C1_dial_failure_reply_is_header_only_witness :
  let final := session unreachable []
                 {| incoming := greeting_auth ++ connect_127_0_0_1_80; accepts := None |}
                 users1 in
  sent (trace final) = [x05; x02; x01; x00] ++ [x05; x01; x00; x01]
  /\ sent (trace final)
     <> [x05; x02; x01; x00] ++ [x05; x01; x00; x01; x00; x00; x00; x00; x00; x00].
Proof.
  destruct (C1_dial_failure_reply_is_header_only unreachable []
              {| incoming := greeting_auth ++ connect_127_0_0_1_80; accepts := None |}
              users1 x7f x00 x00 x01 x00 x50 [] eq_refl eq_refl eq_refl)
    as (n & E & Hn).
  rewrite (Hn I) in E. cbv zeta. rewrite E.
  split; [reflexivity|discriminate].
Defined.



(** C5. A greeting whose version byte is not 5 ends the session with no
    call but the read of that byte and the close of the client stream; a
    request header with a wrong version, command, reserved byte or
    address type makes [Req] return false after the read of the header,
    with nothing written and nothing dialled, and an authenticated
    session that meets such a header ends with that read and the close of
    the client stream. *)
Theorem C5_header_violations_send_no_reply :
  forall DialTCP relay (gver : byte) (grest : list byte) (gcf : Config) (gw : option nat)
         (ver cmd rsv atyp : byte) (rest : list byte) cf w s c tr,
    gver <> x05 ->
    (ver <> x05 \/ cmd <> x01 \/ rsv <> x00 \/ atyp <> x01) ->
    trace (session DialTCP relay {| incoming := gver :: grest; accepts := gw |} gcf)
    = [EvReadByte (Some gver); EvCloseClient]
    /\ Req DialTCP (mkTCPConn cf (ver :: cmd :: rsv :: atyp :: rest) w s c tr)
       = (false, mkTCPConn cf rest w s c (tr ++ [EvReadFull 4 [ver; cmd; rsv; atyp]]))
    /\ (forall (a : ClientConn) (acf : Config),
          fst (Auth (NewTCPConn a acf)) = true ->
          clientR (snd (Auth (NewTCPConn a acf))) = ver :: cmd :: rsv :: atyp :: rest ->
          trace (session DialTCP relay a acf)
          = trace (snd (Auth (NewTCPConn a acf)))
            ++ [EvReadFull 4 [ver; cmd; rsv; atyp]; EvCloseClient]).
Proof.
  intros DialTCP relay gver grest gcf gw ver cmd rsv atyp rest cf w s c tr Hg Hr.
  split; [|split].
  - pose proof (Auth_bad_version gver grest gcf gw None false [] Hg) as E.
    rewrite session_Auth_false; unfold NewTCPConn; cbn [incoming accepts];
      rewrite E; reflexivity.
  - now apply Req_bad_header.
  - intros a acf HA HR.
    destruct (after_Auth a acf) as (Hs & _ & _).
    pose proof (session_Req_false DialTCP relay a acf HA) as ES.
    destruct (snd (Auth (NewTCPConn a acf))) as [cf' r w' s' co tr'].
    cbn [clientR server trace] in *. subst r s'.
    rewrite ES; rewrite (Req_bad_header DialTCP _ _ _ _ _ _ _ _ _ _ Hr);
      [|reflexivity].
    cbn [snd]. unfold Close. cbn [server log trace].
    now rewrite <- app_assoc.
Qed.

Lemma C5_header_violations_send_no_reply_witness :
  writes (trace (session reachable [] {| incoming := [x04; x01; x02]; accepts := None |}
                         users1)) = []
  /\ fst (Req reachable (mkTCPConn users1 [x05; x02; x00; x01; x7f; x00; x00; x01; x00; x50]
                                   None None false [])) = false.
Proof.
  assert (Hg : x04 <> x05) by discriminate.
  assert (Hr : x05 <> x05 \/ x02 <> x01 \/ x00 <> x00 \/ x01 <> x01)
    by (right; left; discriminate).
  destruct (C5_header_violations_send_no_reply reachable [] x04 [x01; x02] users1 None
              x05 x02 x00 x01 [x7f; x00; x00; x01; x00; x50] users1 None None false []
              Hg Hr) as (Hs & Hq & _).
  split.
  - rewrite Hs. reflexivity.
  - rewrite Hq. reflexivity.
Defined.

(** C6. For a well-formed CONNECT whose dial succeeds, with a client that
    accepts the reply, [Req] writes the header [05 00 00 01] and then six
    bytes that decode to the local IPv4 address and the local port of the
    connection just opened, keeps that connection in [tcp.server], and
    returns true; and a session whose [Auth] returned true and that meets
    such a request enters [Run] right after that reply. *)
Theorem C6_connect_reply_carries_local_address :
  forall DialTCP relay (a0 a1 a2 a3 p0 p1 : byte) (srv : net.TCPConn) (rest : list byte)
         cf w s c tr,
    DialTCP {| net.IP := [a0; a1; a2; a3]; net.Port := binary.Uint16 p0 p1 |} = Some srv ->
    has_room 10 w ->
    length (net.To4 (net.IP (net.LocalAddr srv))) = 4%nat ->
    0 <= net.Port (net.LocalAddr srv) < 2 ^ 16 ->
    exists bound : list byte,
      Req DialTCP (mkTCPConn cf ([x05; x01; x00; x01] ++ [a0; a1; a2; a3; p0; p1] ++ rest)
                             w s c tr)
      = (true,
         mkTCPConn cf rest (less_room 10 w) (Some srv) c
           (tr ++ request_events a0 a1 a2 a3 p0 p1 true
               ++ [EvWrite [x05; x00; x00; x01] 4; EvWrite bound 6]))
      /\ length bound = 6%nat
      /\ decode_ipv4Addr bound
         = {| Addr := net.To4 (net.IP (net.LocalAddr srv));
              Port := net.Port (net.LocalAddr srv) |}
      /\ forall (client : ClientConn) (ccf : Config),
           fst (Auth (NewTCPConn client ccf)) = true ->
           snd (Auth (NewTCPConn client ccf))
           = mkTCPConn cf ([x05; x01; x00; x01] ++ [a0; a1; a2; a3; p0; p1] ++ rest)
                       w s c tr ->
           In EvRun (trace (runTCPConn DialTCP relay client ccf))
           /\ exists evs,
                trace (runTCPConn DialTCP relay client ccf)
                = tr ++ request_events a0 a1 a2 a3 p0 p1 true
                    ++ [EvWrite [x05; x00; x00; x01] 4; EvWrite bound 6]
                    ++ EvRun :: evs.
Proof.
  intros DialTCP relay a0 a1 a2 a3 p0 p1 srv rest cf w s c tr Hdial Hw H4 Hport.
  pose proof (Req_success DialTCP a0 a1 a2 a3 p0 p1 srv rest cf w s c tr Hdial Hw) as EQ.
  cbv zeta in EQ. specialize (EQ H4).
  eexists. split; [exact EQ|].
  assert (Hrelay : forall (client : ClientConn) (ccf : Config),
             fst (Auth (NewTCPConn client ccf)) = true ->
             snd (Auth (NewTCPConn client ccf))
             = mkTCPConn cf ([x05; x01; x00; x01] ++ [a0; a1; a2; a3; p0; p1] ++ rest)
                         w s c tr ->
             exists evs,
               trace (runTCPConn DialTCP relay client ccf)
               = tr ++ request_events a0 a1 a2 a3 p0 p1 true
                   ++ [EvWrite [x05; x00; x00; x01] 4;
                       EvWrite (encode_ipv4Addr
                                  {| Addr := copy [x00; x00; x00; x00]
                                                  (net.To4 (net.IP (net.LocalAddr srv)));
                                     Port := net.Port (net.LocalAddr srv) mod 2 ^ 16 |}) 6]
                   ++ EvRun :: evs).
  { intros client ccf HA HS. unfold runTCPConn.
    destruct (Auth (NewTCPConn client ccf)) as [ok t1]. cbn [fst snd] in HA, HS.
    subst ok t1. cbn [negb]. rewrite EQ. cbn [negb]. unfold Run.
    match goal with
    | |- context [Run_copy relay ?t] =>
        destruct (Run_copy_relays relay t) as [_ (evs & E & _)];
        destruct (Run_copy relay t) as [returned t3]
    end.
    cbn [snd trace set_copier log] in E.
    destruct returned.
    - rewrite Close_trace, E. eexists. rewrite <- !app_assoc. cbn [app]. reflexivity.
    - rewrite E. eexists. rewrite <- !app_assoc. cbn [app]. reflexivity. }
  split; [|split; [|intros client ccf HA HS; split]].
  - unfold encode_ipv4Addr. cbn [Addr Port].
    rewrite copy_full by exact H4. rewrite length_app, H4. reflexivity.
  - rewrite copy_full by exact H4.
    rewrite Z.mod_small by exact Hport.
    destruct (net.To4 (net.IP (net.LocalAddr srv))) as [|l0 [|l1 [|l2 [|l3 [|l4 l]]]]];
      try discriminate.
    unfold encode_ipv4Addr, decode_ipv4Addr; cbn [Addr Port app firstn nth binary.PutUint16].
    f_equal. now apply Uint16_PutUint16.
  - destruct (Hrelay client ccf HA HS) as (evs & E). rewrite E.
    apply in_or_app. right. apply in_or_app. right. apply in_or_app. right. now left.
  - exact (Hrelay client ccf HA HS).
Qed.

Lemma C6_connect_reply_carries_local_address_witness :
  exists bound : list byte,
    sent (trace (snd (Req reachable
                        (mkTCPConn users1 connect_127_0_0_1_80 None None false []))))
    = [x05; x00; x00; x01] ++ bound
    /\ decode_ipv4Addr bound = {| Addr := [xc0; xa8; x00; x02]; Port := 51234 |}
    /\ In EvRun (trace (runTCPConn reachable [ServerEnd]
                          {| incoming := greeting_auth ++ connect_127_0_0_1_80;
                             accepts := None |} users1)).
Proof.
  assert (Hport : 0 <= 51234 < 2 ^ 16) by (split; [discriminate|reflexivity]).
  destruct (C6_connect_reply_carries_local_address reachable [ServerEnd]
              x7f x00 x00 x01 x00 x50
              {| net.LocalAddr := {| net.IP := [xc0; xa8; x00; x02]; net.Port := 51234 |} |}
              [] users1 None None false [] eq_refl I eq_refl Hport)
    as (bound & E & Hlen & Hdec & _).
  destruct (C6_connect_reply_carries_local_address reachable [ServerEnd]
              x7f x00 x00 x01 x00 x50
              {| net.LocalAddr := {| net.IP := [xc0; xa8; x00; x02]; net.Port := 51234 |} |}
              [] users1 None None false
              (greeting_events x01 [x02]
               ++ [EvReadByte (Some x01);
                   EvReadByte (Some x04); EvReadFull 4 (bytes "user");
                   EvReadByte (Some x04); EvReadFull 4 (bytes "pass");
                   EvCompare (bytes "user") (bytes "user");
                   EvCompare (bytes "pass") (bytes "pass");
                   EvWrite [x01; x00] 2])
              eq_refl I eq_refl Hport)
    as (bound' & _ & _ & _ & Hsession).
  exists bound. split; [|split; [exact Hdec|]].
  - unfold connect_127_0_0_1_80. cbn [app] in E. rewrite E.
    destruct bound as [|b0 [|b1 [|b2 [|b3 [|b4 [|b5 [|b6 bound]]]]]]];
      try discriminate Hlen.
    reflexivity.
  - apply (fun HA HS =>
             proj1 (Hsession {| incoming := greeting_auth ++ connect_127_0_0_1_80;
                                accepts := None |} users1 HA HS));
      vm_compute; reflexivity.
Defined.

(** C7. A greeting that does not offer method 2 ends the session after
    exactly these calls: the three reads of the greeting, one write of
    [05 FF] (which reaches a client that accepts two bytes in full), and
    the close of the client stream; what follows the greeting in the
    client's stream is not read. *)
Theorem C7_no_acceptable_method_reply :
  forall DialTCP relay (nmethod : byte) (methods rest : list byte) (cf : Config)
         (w : option nat),
    length methods = Byte.to_nat nmethod ->
    ~ In x02 methods ->
    let c := {| incoming := x05 :: nmethod :: methods ++ rest; accepts := w |} in
    exists n,
      trace (session DialTCP relay c cf)
      = [EvReadByte (Some x05); EvReadByte (Some nmethod);
         EvReadFull (length methods) methods; EvWrite [x05; xff] n; EvCloseClient]
      /\ (has_room 2 w -> n = 2%nat)
      /\ fst (Auth (NewTCPConn c cf)) = false
      /\ clientR (snd (Auth (NewTCPConn c cf))) = rest.
Proof.
  intros DialTCP relay nmethod methods rest cf w Hlen Habsent c.
  destruct (Auth_no_method nmethod methods rest cf w None false [] Hlen Habsent)
    as (n & w' & E & Hn).
  exists n.
  assert (EA : Auth (NewTCPConn c cf) = Auth (mkTCPConn cf (x05 :: nmethod :: methods ++ rest)
                                                        w None false [])) by reflexivity.
  rewrite E in EA.
  rewrite session_Auth_false; rewrite EA; auto.
Qed.

Lemma C7_no_acceptable_method_reply_witness :
  exists n,
    trace (session unreachable [] {| incoming := [x05; x01; x03]; accepts := None |} users1)
    = [EvReadByte (Some x05); EvReadByte (Some x01); EvReadFull 1 [x03];
       EvWrite [x05; xff] n; EvCloseClient].
Proof.
  assert (Habsent : ~ In x02 [x03]).
  { intros [H|[]]. discriminate H. }
  destruct (C7_no_acceptable_method_reply unreachable [] x01 [x03] [] users1 None
              eq_refl Habsent) as (n & E & _).
  exists n. exact E.
Defined.

(** C10. A greeting [05 00] offers no method: the read of zero method
    bytes succeeds, also at the end of the client's stream, [05 FF] is
    written and the session ends. *)
Theorem C10_empty_method_list :
  forall DialTCP relay (rest : list byte) (cf : Config) (w : option nat),
    exists n,
      trace (session DialTCP relay {| incoming := x05 :: x00 :: rest; accepts := w |} cf)
      = [EvReadByte (Some x05); EvReadByte (Some x00); EvReadFull 0 [];
         EvWrite [x05; xff] n; EvCloseClient]
      /\ (has_room 2 w -> n = 2%nat)
      /\ fst (Auth (NewTCPConn {| incoming := x05 :: x00 :: rest; accepts := w |} cf)) = false.
Proof.
  intros DialTCP relay rest cf w.
  destruct (Auth_no_method x00 [] rest cf w None false [] eq_refl (fun H => H))
    as (n & w' & E & Hn).
  exists n.
  assert (EA : Auth (NewTCPConn {| incoming := x05 :: x00 :: rest; accepts := w |} cf)
               = Auth (mkTCPConn cf (x05 :: x00 :: [] ++ rest) w None false []))
    by reflexivity.
  rewrite E in EA.
  rewrite session_Auth_false; rewrite EA; auto.
Qed.

(** C8. With a username length of 0, or a password length of 0, the
    session ends right after the read of that length byte: no comparison
    is made and no status reply is written. *)
Theorem C8_zero_length_fields_skip_the_scan :
  forall DialTCP relay (nmethod ulen : byte) (methods username rest : list byte)
         (cf : Config) (w : option nat),
    length methods = Byte.to_nat nmethod -> In x02 methods ->
    has_room 2 w ->
    ulen <> x00 -> length username = Byte.to_nat ulen ->
    let zero_ulen := {| incoming := x05 :: nmethod :: methods ++ x01 :: x00 :: rest;
                        accepts := w |} in
    let zero_plen := {| incoming := x05 :: nmethod :: methods
                                      ++ x01 :: ulen :: username ++ x00 :: rest;
                        accepts := w |} in
    (trace (session DialTCP relay zero_ulen cf)
     = greeting_events nmethod methods
       ++ [EvReadByte (Some x01); EvReadByte (Some x00); EvCloseClient]
     /\ compares (trace (session DialTCP relay zero_ulen cf)) = [])
    /\ (trace (session DialTCP relay zero_plen cf)
        = greeting_events nmethod methods
          ++ [EvReadByte (Some x01); EvReadByte (Some ulen);
              EvReadFull (length username) username; EvReadByte (Some x00);
              EvCloseClient]
        /\ compares (trace (session DialTCP relay zero_plen cf)) = []).
Proof.
  intros DialTCP relay nmethod ulen methods username rest cf w
         Hlen Hin Hw Hulen Hu zero_ulen zero_plen.
  pose proof (Auth_zero_ulen nmethod methods rest cf w None false [] Hlen Hin Hw) as E1.
  pose proof (Auth_zero_plen nmethod ulen methods username rest cf w None false []
                Hlen Hin Hw Hulen Hu) as E2.
  assert (T1 : trace (session DialTCP relay zero_ulen cf)
               = greeting_events nmethod methods
                 ++ [EvReadByte (Some x01); EvReadByte (Some x00); EvCloseClient]).
  { rewrite session_Auth_false; unfold NewTCPConn, zero_ulen; cbn [incoming accepts];
      rewrite E1; [|reflexivity].
    cbn [snd log trace app]. now rewrite <- app_assoc. }
  assert (T2 : trace (session DialTCP relay zero_plen cf)
               = greeting_events nmethod methods
                 ++ [EvReadByte (Some x01); EvReadByte (Some ulen);
                     EvReadFull (length username) username; EvReadByte (Some x00);
                     EvCloseClient]).
  { rewrite session_Auth_false; unfold NewTCPConn, zero_plen; cbn [incoming accepts];
      rewrite E2; [|reflexivity].
    cbn [snd log trace app]. now rewrite <- app_assoc. }
  split; (split; [assumption|]).
  - rewrite T1. reflexivity.
  - rewrite T2. reflexivity.
Qed.

Lemma C8_zero_length_fields_skip_the_scan_witness :
  compares (trace (session unreachable []
                     {| incoming := [x05; x01; x02; x01; x00; x04] ++ bytes "pass";
                        accepts := None |} users1)) = []
  /\ compares (trace (session unreachable []
                        {| incoming := [x05; x01; x02; x01; x04] ++ bytes "user" ++ [x00];
                           accepts := None |} users1)) = [].
Proof.
  assert (Hin : In x02 [x02]) by (left; reflexivity).
  assert (Hu : x04 <> x00) by discriminate.
  destruct (C8_zero_length_fields_skip_the_scan unreachable [] x01 x04 [x02]
              (bytes "user") (x04 :: bytes "pass") users1 None
              eq_refl Hin I Hu eq_refl) as [[_ H1] _].
  destruct (C8_zero_length_fields_skip_the_scan unreachable [] x01 x04 [x02]
              (bytes "user") [] users1 None
              eq_refl Hin I Hu eq_refl) as [_ [_ H2]].
  split; [exact H1|exact H2].
Defined.

(** C9. [Run] is entered only after [Auth] and [Req] have both returned
    true, and then with a destination connection in [tcp.server]. *)
Theorem C9_relay_only_after_auth_and_dial :
  forall DialTCP relay (c : ClientConn) (cf : Config),
    In EvRun (trace (runTCPConn DialTCP relay c cf)) ->
    let authed := Auth (NewTCPConn c cf) in
    let dialled := Req DialTCP (snd authed) in
    fst authed = true /\ fst dialled = true /\ server (snd dialled) <> None.
Proof.
  intros DialTCP relay c cf Hrun authed dialled.
  destruct (after_Auth c cf) as (_ & _ & F1).
  destruct (after_Req DialTCP c cf) as (_ & F2).
  pose proof (Req_true_server DialTCP (snd authed)) as Hsrv.
  fold authed in F1, F2. fold dialled in F2, Hsrv.
  unfold runTCPConn in Hrun. fold authed in Hrun.
  destruct authed as [[] t1]; cbn [fst snd negb] in *.
  - fold dialled in Hrun.
    destruct dialled as [[] t2]; cbn [fst snd negb] in *.
    + auto.
    + exfalso. rewrite Close_trace in Hrun.
      apply in_app_or in Hrun. destruct Hrun as [Hrun|Hrun].
      * exact (handshake_no_Run _ F2 Hrun).
      * destruct (server t2); simpl in Hrun; intuition discriminate.
  - exfalso. rewrite Close_trace in Hrun.
    apply in_app_or in Hrun. destruct Hrun as [Hrun|Hrun].
    + exact (handshake_no_Run _ F1 Hrun).
    + destruct (server t1); simpl in Hrun; intuition discriminate.
Qed.

Lemma C9_relay_only_after_auth_and_dial_witness :
  server (snd (Req reachable
                 (snd (Auth (NewTCPConn {| incoming := greeting_auth ++ connect_127_0_0_1_80;
                                           accepts := None |} users1))))) <> None.
Proof.
  assert (Hrun : In EvRun (trace (runTCPConn reachable [ServerEnd]
                                    {| incoming := greeting_auth ++ connect_127_0_0_1_80;
                                       accepts := None |} users1))).
  { vm_compute. do 17 right. left. reflexivity. }
  exact (proj2 (proj2 (C9_relay_only_after_auth_and_dial reachable [ServerEnd]
                         {| incoming := greeting_auth ++ connect_127_0_0_1_80;
                            accepts := None |} users1 Hrun))).
Defined.

(** ** The relay and the teardown *)

Lemma goroutine_wakes_closes tcp :
  closes_server (trace (goroutine_wakes tcp)) = closes_server (trace tcp)
  /\ closes_client (trace (goroutine_wakes tcp)) = closes_client (trace tcp).
Proof.
  unfold goroutine_wakes.
  destruct (copier tcp && existsb _ (trace tcp)); [|auto].
  cbn [trace log set_copier].
  rewrite closes_server_app, closes_client_app. simpl. lia.
Qed.


Lemma Close_closes tcp :
  server tcp <> None ->
  closes_server (trace (Close tcp)) = S (closes_server (trace tcp))
  /\ closes_client (trace (Close tcp)) = S (closes_client (trace tcp)).
Proof.
  intros H. rewrite Close_trace. destruct (server tcp); [|congruence].
  rewrite closes_server_app, closes_client_app. simpl. lia.
Qed.

Lemma Run_relays relay tcp :
  server (snd (Run relay tcp)) = server tcp
  /\ closes_server (trace (snd (Run relay tcp))) = closes_server (trace tcp)
  /\ closes_client (trace (snd (Run relay tcp))) = closes_client (trace tcp).
Proof.
  unfold Run.
  destruct (Run_copy_relays relay (set_copier true (log EvRun tcp)))
    as [Hs (evs & E & F)].
  destruct (closes_none evs F) as [F1 F2].
  cbn [server trace set_copier log] in *.
  rewrite E, !closes_server_app, !closes_client_app, F1, F2. simpl.
  split; [exact Hs|lia].
Qed.








(** * Beyond the claims *)

(** ** When [Auth] returns true *)

Lemma step_ReadByte_end {R B} (r0 : R) (k : byte -> Body R B) cf w s c tr :
  bind (orReturn ReadByte r0) k (mkTCPConn cf [] w s c tr)
  = (inl r0, mkTCPConn cf [] w s c (tr ++ [EvReadByte None])).
Proof. reflexivity. Qed.

Lemma ReadFull_short (n : nat) (r : list byte) cf w s c tr :
  (length r < n)%nat ->
  ReadFull n (mkTCPConn cf r w s c tr)
  = (None, mkTCPConn cf [] w s c (tr ++ [EvReadFull n r])).
Proof.
  intros H. unfold ReadFull, log, set_clientR; simpl.
  rewrite firstn_all2, skipn_all2 by lia.
  destruct (Nat.eqb_spec (length r) n); [lia|reflexivity].
Qed.

Lemma step_ReadFull_short {R B} (r0 : R) (k : list byte -> Body R B) n r cf w s c tr :
  (length r < n)%nat ->
  bind (orReturn (ReadFull n) r0) k (mkTCPConn cf r w s c tr)
  = (inl r0, mkTCPConn cf [] w s c (tr ++ [EvReadFull n r])).
Proof.
  intros H. unfold bind, orReturn. now rewrite ReadFull_short.
Qed.

Lemma step_binary_Read_short {R B V} (r0 : R) (decode : list byte -> V)
    (k : V -> Body R B) n r cf w s c tr :
  (length r < n)%nat ->
  bind (orReturn (binary_Read n decode) r0) k (mkTCPConn cf r w s c tr)
  = (inl r0, mkTCPConn cf [] w s c (tr ++ [EvReadFull n r])).
Proof.
  intros H. unfold bind, orReturn, binary_Read. now rewrite ReadFull_short.
Qed.

Lemma step_Write_refused {R B} (r0 : R) (k : unit -> Body R B) b r cf room s c tr :
  (room < length b)%nat ->
  bind (orReturn (Write b) r0) k (mkTCPConn cf r (Some room) s c tr)
  = (inl r0, mkTCPConn cf r (Some 0%nat) s c (tr ++ [EvWrite b room])).
Proof.
  intros H. unfold bind, orReturn, Write. cbn [clientW].
  destruct (Nat.leb_spec (length b) room); [lia|reflexivity].
Qed.

(** The case of a write that the client connection refuses. *)
Ltac refused H :=
  match type of H with
  | ~ has_room _ ?w =>
      destruct w as [?room|];
      [ unfold less_room in H |- *; cbn [has_room option_map] in H |- *;
        rewrite step_Write_refused by (cbn [length]; lia)
      | exfalso; apply H; exact I ]
  end.

Lemma split_at (n : nat) (r : list byte) :
  (n <= length r)%nat -> exists bs rest, r = bs ++ rest /\ length bs = n.
Proof.
  intros H. exists (firstn n r), (skipn n r). split.
  - symmetry. apply firstn_skipn.
  - apply firstn_length_le. exact H.
Qed.

Lemma has_room_more (n m : nat) (w : option nat) :
  has_room n w -> has_room m (less_room n w) -> has_room (n + m) w.
Proof.
  destruct w as [room|]; simpl; [lia|auto].
Qed.

Lemma Auth_method_offered (methods : list byte) :
  Auth_method methods <> xff -> In x02 methods /\ Auth_method methods = x02.
Proof.
  intros H. destruct (in_dec Byte.byte_eq_dec x02 methods) as [Hin|Hout].
  - split; [exact Hin|]. now apply Auth_method_present.
  - exfalso. apply H. now apply Auth_method_absent.
Qed.

Lemma scan_finds (username password : list byte) (users : list User) :
  fold_left orb (map (userOk username password) users) false = true
  <-> exists user, In user users
                   /\ bytes (Username user) = username
                   /\ bytes (Password user) = password.
Proof.
  rewrite fold_orb_existsb. cbn [orb]. split.
  - intros H. apply existsb_exists in H.
    destruct H as [b [Hb Htrue]]. subst b. apply in_map_iff in Hb.
    destruct Hb as [u [Hu Hin]]. apply userOk_true in Hu.
    exists u. intuition.
  - intros [u [Hin [Hn Hp]]]. apply existsb_exists.
    exists true. split; [|reflexivity]. apply in_map_iff.
    exists u. split; [|exact Hin]. apply userOk_true. auto.
Qed.

(** The well-formed handshakes that [Auth] accepts. *)
Lemma Auth_true_inv cf r w s c tr :
  fst (Auth (mkTCPConn cf r w s c tr)) = true ->
  exists (nmethod ulen plen : byte) (methods username password rest : list byte),
    r = x05 :: nmethod :: methods ++ x01 :: ulen :: username ++ plen :: password ++ rest
    /\ length methods = Byte.to_nat nmethod /\ In x02 methods
    /\ ulen <> x00 /\ length username = Byte.to_nat ulen
    /\ plen <> x00 /\ length password = Byte.to_nat plen
    /\ has_room 4 w
    /\ fold_left orb (map (userOk username password) (Users cf)) false = true.
Proof.
  unfold Auth, func.
  destruct r as [|ver r]; [rewrite step_ReadByte_end; discriminate|]. step.
  destruct (beq ver x05) eqn:Ever; cbn [negb]; [|step; discriminate].
  apply beq_true in Ever. subst ver. step.
  destruct r as [|nmethod r]; [rewrite step_ReadByte_end; discriminate|]. step.
  destruct (Nat.lt_ge_cases (length r) (Byte.to_nat nmethod)) as [Hshort|Hlong];
    [rewrite step_ReadFull_short by exact Hshort; discriminate|].
  destruct (split_at _ r Hlong) as (methods & r1 & -> & Hm). step.
  cbv zeta.
  destruct (has_room_dec 2 w) as [Hw1|Hw1]; [|refused Hw1; discriminate].
  step.
  destruct (beq (Auth_method methods) xff) eqn:Emeth; [step; discriminate|].
  apply beq_false, Auth_method_offered in Emeth. destruct Emeth as [Hin _]. step.
  destruct r1 as [|ver r1]; [rewrite step_ReadByte_end; discriminate|]. step.
  destruct (beq ver x01) eqn:Ever; cbn [negb]; [|step; discriminate].
  apply beq_true in Ever. subst ver. step.
  destruct r1 as [|ulen r1]; [rewrite step_ReadByte_end; discriminate|]. step.
  destruct (beq ulen x00) eqn:Eulen; [step; discriminate|].
  apply beq_false in Eulen. step.
  destruct (Nat.lt_ge_cases (length r1) (Byte.to_nat ulen)) as [Hshort|Hlong1];
    [rewrite step_ReadFull_short by exact Hshort; discriminate|].
  destruct (split_at _ r1 Hlong1) as (username & r2 & -> & Hu). step.
  destruct r2 as [|plen r2]; [rewrite step_ReadByte_end; discriminate|]. step.
  destruct (beq plen x00) eqn:Eplen; [step; discriminate|].
  apply beq_false in Eplen. step.
  destruct (Nat.lt_ge_cases (length r2) (Byte.to_nat plen)) as [Hshort|Hlong2];
    [rewrite step_ReadFull_short by exact Hshort; discriminate|].
  destruct (split_at _ r2 Hlong2) as (password & rest & -> & Hp). step.
  unfold bind at 1. cbn [conf]. rewrite Auth_users_run.
  set (userFound := fold_left orb (map (userOk username password) (Users cf)) false).
  cbv zeta.
  destruct (has_room_dec 2 (less_room 2 w)) as [Hw2|Hw2].
  - rewrite step_Write by exact Hw2.
    destruct userFound eqn:Efound; cbn [negb nth];
      [|change (beq x01 x00) with false; discriminate].
    intros _. exists nmethod, ulen, plen, methods, username, password, rest.
    repeat split; auto. now apply (has_room_more 2 2).
  - cbn [length]. refused Hw2; discriminate.
Qed.

Lemma to_nat_nonzero (b : byte) : b <> x00 -> (1 <= Byte.to_nat b <= 255)%nat.
Proof.
  intros H. split; [|apply Byte.to_nat_bounded].
  destruct (Byte.to_nat b) eqn:E; [|lia].
  exfalso. apply H. pose proof (Byte.of_to_nat b) as Hb. rewrite E in Hb.
  now inversion Hb.
Qed.

(** X1. [Auth] returns true only after a complete, well-formed greeting
    and sub-negotiation that offers method 2, carries a username and a
    password of 1 to 255 bytes equal to those of a configured credential,
    and whose two replies the client accepted; what it has then read is
    that handshake and nothing more. *)
Theorem X1_Auth_accepts_only_matching_handshakes :
  forall tcp : TCPConn,
    fst (Auth tcp) = true ->
    exists (nmethod ulen plen : byte) (methods username password : list byte),
      clientR tcp
      = x05 :: nmethod :: methods
          ++ x01 :: ulen :: username ++ plen :: password ++ clientR (snd (Auth tcp))
      /\ length methods = Byte.to_nat nmethod /\ In x02 methods
      /\ length username = Byte.to_nat ulen /\ (1 <= length username <= 255)%nat
      /\ length password = Byte.to_nat plen /\ (1 <= length password <= 255)%nat
      /\ has_room 4 (clientW tcp)
      /\ exists user, In user (Users (conf tcp))
                      /\ bytes (Username user) = username
                      /\ bytes (Password user) = password.
Proof.
  intros [cf r w s c tr] H.
  destruct (Auth_true_inv cf r w s c tr H)
    as (nmethod & ulen & plen & methods & username & password & rest
        & -> & Hm & Hin & Hulen & Hu & Hplen & Hp & Hw & Hfound).
  exists nmethod, ulen, plen, methods, username, password.
  rewrite Auth_subnegotiation by assumption. cbn [snd clientR clientW conf].
  pose proof (to_nat_nonzero ulen Hulen). pose proof (to_nat_nonzero plen Hplen).
  repeat split; auto; try lia.
  now apply scan_finds.
Qed.

Lemma X1_Auth_accepts_only_matching_handshakes_witness :
  exists (nmethod ulen plen : byte) (methods username password : list byte),
    greeting_auth ++ connect_127_0_0_1_80
    = x05 :: nmethod :: methods
        ++ x01 :: ulen :: username ++ plen :: password ++ connect_127_0_0_1_80
    /\ In x02 methods
    /\ exists user, In user (Users users1)
                    /\ bytes (Username user) = username
                    /\ bytes (Password user) = password.
Proof.
  destruct (X1_Auth_accepts_only_matching_handshakes
              (NewTCPConn {| incoming := greeting_auth ++ connect_127_0_0_1_80;
                             accepts := None |} users1) eq_refl)
    as (nmethod & ulen & plen & methods & username & password
        & E & _ & Hin & _ & _ & _ & _ & _ & Hu).
  exists nmethod, ulen, plen, methods, username, password.
  split; [exact E|]. split; [exact Hin|exact Hu].
Defined.

(** X2. With no configured users [Auth] returns false on every input. *)
Theorem X2_no_users_no_authentication :
  forall tcp : TCPConn, Users (conf tcp) = [] -> fst (Auth tcp) = false.
Proof.
  intros [cf r w s c tr] Hnone. cbn [conf] in Hnone.
  destruct (fst (Auth (mkTCPConn cf r w s c tr))) eqn:E; [|reflexivity].
  destruct (Auth_true_inv cf r w s c tr E)
    as (nmethod & ulen & plen & methods & username & password & rest
        & _ & _ & _ & _ & _ & _ & _ & _ & Hfound).
  rewrite Hnone in Hfound. discriminate Hfound.
Qed.

Lemma X2_no_users_no_authentication_witness :
  fst (Auth (NewTCPConn {| incoming := greeting_auth; accepts := None |}
                        {| Server := ""; Users := [] |})) = false.
Proof.
  exact (X2_no_users_no_authentication
           (NewTCPConn {| incoming := greeting_auth; accepts := None |}
                       {| Server := ""; Users := [] |}) eq_refl).
Defined.

(** X3. The verdict of [Auth] depends on the configured credentials as a
    set only: two configurations with the same users, in whatever order
    and with whatever repetitions, give the same answer on every input. *)
Theorem X3_Auth_ignores_order_of_users :
  forall (cf cf' : Config) (r : list byte) w s c tr,
    (forall user, In user (Users cf) <-> In user (Users cf')) ->
    fst (Auth (mkTCPConn cf r w s c tr)) = fst (Auth (mkTCPConn cf' r w s c tr)).
Proof.
  assert (Hle : forall cf cf' r w s c tr,
             (forall user, In user (Users cf) -> In user (Users cf')) ->
             fst (Auth (mkTCPConn cf r w s c tr)) = true ->
             fst (Auth (mkTCPConn cf' r w s c tr)) = true).
  { intros cf cf' r w s c tr Hsub H.
    destruct (Auth_true_inv cf r w s c tr H)
      as (nmethod & ulen & plen & methods & username & password & rest
          & -> & Hm & Hin & Hulen & Hu & Hplen & Hp & Hw & Hfound).
    rewrite Auth_subnegotiation by assumption. cbn [fst].
    apply scan_finds. apply scan_finds in Hfound.
    destruct Hfound as [u [Hu1 Hu2]]. exists u. split; [apply Hsub|]; assumption. }
  intros cf cf' r w s c tr Hsame.
  destruct (fst (Auth (mkTCPConn cf r w s c tr))) eqn:E1.
  - symmetry. apply (Hle cf cf'); [intros u; apply Hsame|exact E1].
  - destruct (fst (Auth (mkTCPConn cf' r w s c tr))) eqn:E2; [|reflexivity].
    rewrite (Hle cf' cf r w s c tr) in E1; [discriminate| |exact E2].
    intros u; apply Hsame.
Qed.

Lemma X3_Auth_ignores_order_of_users_witness :
  fst (Auth (mkTCPConn
               {| Server := "";
                  Users := [ {| Username := "u"; Password := "p" |};
                             {| Username := "user"; Password := "pass" |} ] |}
               greeting_auth None None false []))
  = fst (Auth (mkTCPConn
                 {| Server := "";
                    Users := [ {| Username := "user"; Password := "pass" |};
                               {| Username := "u"; Password := "p" |};
                               {| Username := "user"; Password := "pass" |} ] |}
                 greeting_auth None None false [])).
Proof.
  apply X3_Auth_ignores_order_of_users.
  intros user. simpl. tauto.
Defined.

(** ** What a handshake costs *)

Lemma copy_length (dst src : list byte) : length (copy dst src) = length dst.
Proof.
  unfold copy. rewrite length_app, length_firstn, length_skipn. lia.
Qed.

Section Cost.

(** A cost that is zero for no step and adds up along steps, with the
    cost of each call on the client streams given, bounds the cost of
    [Auth]; with the cost of a dial given too, that of [Req]. *)
Variable cost : nat -> TCPConn -> TCPConn -> Prop.
Hypothesis cost_zero : forall tcp, cost 0 tcp tcp.
Hypothesis cost_add : forall k1 k2 a b c, cost k1 a b -> cost k2 b c -> cost (k1 + k2) a c.
Hypothesis cost_le : forall k k' a b, (k <= k')%nat -> cost k a b -> cost k' a b.

Lemma spends_le {R A} (k k' : nat) (m : Body R A) :
  spends cost k m -> (k <= k')%nat -> spends cost k' m.
Proof. intros H Hle tcp. eapply cost_le; [exact Hle|apply H]. Qed.

Lemma spends_pure {R A} (a : A) : spends cost 0 (pure (R := R) a).
Proof. intros tcp. apply cost_zero. Qed.

Lemma spends_Return {R A} (r : R) : spends cost 0 (Return (A := A) r).
Proof. intros tcp. apply cost_zero. Qed.

Lemma spends_bind {R A B} (k1 k2 : nat) (m : Body R A) (k : A -> Body R B) :
  spends cost k1 m -> (forall a, spends cost k2 (k a)) -> spends cost (k1 + k2) (bind m k).
Proof.
  intros Hm Hk tcp. unfold bind. specialize (Hm tcp).
  destruct (m tcp) as [[r|a] tcp']; cbn [snd] in *.
  - eapply cost_le; [|exact Hm]. lia.
  - eapply cost_add; [exact Hm|apply Hk].
Qed.

Lemma spends_returnIf {R} (b : bool) (r : R) : spends cost 0 (returnIf b r).
Proof. destruct b; [apply spends_Return|apply spends_pure]. Qed.

Lemma spends_orReturn {R A} (k : nat) (f : TCPConn -> option A * TCPConn) (r : R) :
  spends_call cost k f -> spends cost k (orReturn f r).
Proof.
  intros H tcp. unfold orReturn. specialize (H tcp).
  now destruct (f tcp) as [[a|] tcp'].
Qed.

Lemma spends_lift {R A} (k : nat) (f : TCPConn -> A * TCPConn) :
  spends_call cost k f -> spends cost k (lift (R := R) f).
Proof.
  intros H tcp. unfold lift. specialize (H tcp).
  now destruct (f tcp) as [a tcp'].
Qed.

Lemma spends_func {R} (k : nat) (m : Body R R) : spends cost k m -> spends_call cost k (func m).
Proof.
  intros H tcp. unfold func. specialize (H tcp).
  now destruct (m tcp) as [[r|r] tcp'].
Qed.

Variable rb : nat.
Variable rf wr : nat -> nat.
Hypothesis rf_mono : forall n m, (n <= m)%nat -> (rf n <= rf m)%nat.
Hypothesis cost_ReadByte : spends_call cost rb ReadByte.
Hypothesis cost_ReadFull : forall n, spends_call cost (rf n) (ReadFull n).
Hypothesis cost_Write : forall b, spends_call cost (wr (length b)) (Write b).
Hypothesis cost_Compare : forall x y, spends_call cost 0 (ConstantTimeCompare x y).

Lemma spends_Write (n : nat) (b : list byte) :
  length b = n -> spends_call cost (wr n) (Write b).
Proof. intros <-. apply cost_Write. Qed.

Lemma spends_ReadFull_byte (len : byte) : spends_call cost (rf 255) (ReadFull (Byte.to_nat len)).
Proof.
  intros tcp. eapply cost_le; [|apply cost_ReadFull].
  apply rf_mono, Byte.to_nat_bounded.
Qed.

Lemma spends_binary_Read {V} n (decode : list byte -> V) :
  spends_call cost (rf n) (binary_Read n decode).
Proof.
  intros tcp. unfold binary_Read. pose proof (cost_ReadFull n tcp) as H.
  now destruct (ReadFull n tcp) as [[b|] tcp'].
Qed.

Lemma spends_Auth_users {R} username password users userFound :
  spends cost 0 (Auth_users (R := R) username password users userFound).
Proof.
  revert userFound. induction users as [|user users IH]; intros userFound;
    cbn [Auth_users].
  - apply spends_pure.
  - change 0%nat with (0 + (0 + 0))%nat.
    apply spends_bind; [apply spends_lift, cost_Compare|intros c1].
    apply spends_bind; [apply spends_lift, cost_Compare|intros c2].
    apply IH.
Qed.

Ltac spend :=
  repeat first
    [ eapply spends_bind; [|intros ?]
    | progress cbv zeta
    | apply spends_returnIf
    | apply spends_Return
    | apply spends_orReturn, cost_ReadByte
    | apply spends_orReturn, spends_ReadFull_byte
    | eapply spends_orReturn, spends_Write; cbn [length]; reflexivity
    | apply spends_orReturn, spends_binary_Read ].

Lemma spends_Auth : spends_call cost (5 * rb + 3 * rf 255 + 2 * wr 2) Auth.
Proof.
  apply spends_func. eapply spends_le.
  - spend.
    + intros tcp. apply spends_Auth_users.
    + match goal with |- spends _ _ (if ?b then _ else _) => destruct b end;
        apply spends_Return.
  - lia.
Qed.

Variable DialTCP : net.TCPAddr -> option net.TCPConn.
Variable dl : nat.
Hypothesis cost_Dial : forall raddr, spends_call cost dl (Dial DialTCP raddr).
Hypothesis cost_assign : forall srv, spends_call cost 0 (assign_server srv).

Lemma spends_Req : spends_call cost (rf 4 + rf 6 + dl + wr 4 + wr 6) (Req DialTCP).
Proof.
  apply spends_func. eapply spends_le.
  - spend.
    + apply spends_lift, cost_Dial.
    + match goal with |- spends _ _ (match ?d with Some _ => _ | None => _ end) =>
        destruct d as [srv|] end.
      * eapply spends_bind; [eapply spends_orReturn, (spends_Write 4); reflexivity|intros ?].
        eapply spends_bind; [apply spends_lift, cost_assign|intros ?]. cbv zeta.
        eapply spends_bind; [|intros ?; apply spends_Return].
        eapply spends_orReturn, (spends_Write 6).
        unfold binary_Write, encode_ipv4Addr. cbn [Addr Port].
        rewrite length_app, copy_length. reflexivity.
      * eapply spends_le.
        -- eapply spends_bind; [eapply spends_lift, (spends_Write 4); reflexivity|intros ?].
           apply spends_Return.
        -- lia.
  - lia.
Qed.

End Cost.

Lemma reads_zero tcp : reads_at_most 0 tcp tcp.
Proof. exists []. auto. Qed.

Lemma reads_add k1 k2 a b c :
  reads_at_most k1 a b -> reads_at_most k2 b c -> reads_at_most (k1 + k2) a c.
Proof.
  intros (b1 & E1 & L1) (b2 & E2 & L2). exists (b1 ++ b2).
  rewrite E1, E2, app_assoc, length_app. split; [reflexivity|lia].
Qed.

Lemma reads_le k k' a b : (k <= k')%nat -> reads_at_most k a b -> reads_at_most k' a b.
Proof.
  intros Hle (bs & E & L). exists bs. split; [exact E|lia].
Qed.

Lemma reads_ReadByte : spends_call reads_at_most 1 ReadByte.
Proof.
  intros tcp. unfold ReadByte. destruct (clientR tcp) as [|b r] eqn:E; cbn [snd].
  - exists []. split; [reflexivity|cbn; lia].
  - exists [b]. cbn [clientR log set_clientR app]. split; [exact E|cbn; lia].
Qed.

Lemma reads_ReadFull n : spends_call reads_at_most n (ReadFull n).
Proof.
  intros tcp. exists (firstn n (clientR tcp)). split.
  - unfold ReadFull.
    destruct (length (firstn n (clientR tcp)) =? n)%nat; cbn [snd clientR log set_clientR];
      symmetry; apply firstn_skipn.
  - rewrite length_firstn. lia.
Qed.

Lemma Write_clientR b tcp : clientR (snd (Write b tcp)) = clientR tcp.
Proof.
  unfold Write. destruct (clientW tcp) as [room|]; [|reflexivity].
  now destruct (length b <=? room)%nat.
Qed.

Lemma reads_Write b : spends_call reads_at_most 0 (Write b).
Proof.
  intros tcp. exists []. rewrite Write_clientR. auto.
Qed.

Lemma reads_Dial DialTCP raddr : spends_call reads_at_most 0 (Dial DialTCP raddr).
Proof.
  intros tcp. exists []. unfold Dial. destruct (DialTCP raddr); auto.
Qed.

Section Weight.

Variable weight : event -> nat.

Lemma emits_zero tcp : emits weight 0 tcp tcp.
Proof. exists []. rewrite app_nil_r. auto. Qed.

Lemma total_app a b : total weight (a ++ b) = (total weight a + total weight b)%nat.
Proof.
  unfold total. now rewrite map_app, list_sum_app.
Qed.

Lemma emits_add k1 k2 a b c :
  emits weight k1 a b -> emits weight k2 b c -> emits weight (k1 + k2) a c.
Proof.
  intros (e1 & E1 & L1) (e2 & E2 & L2). exists (e1 ++ e2).
  rewrite E2, E1, app_assoc, total_app. split; [reflexivity|lia].
Qed.

Lemma emits_le k k' a b : (k <= k')%nat -> emits weight k a b -> emits weight k' a b.
Proof.
  intros Hle (evs & E & L). exists evs. split; [exact E|lia].
Qed.

Lemma emits_log e tcp : emits weight (weight e) tcp (log e tcp).
Proof.
  exists [e]. split; [reflexivity|]. unfold total. cbn. lia.
Qed.

Lemma emits_one e k tcp tcp' :
  trace tcp' = trace tcp ++ [e] -> (weight e <= k)%nat -> emits weight k tcp tcp'.
Proof.
  intros E L. exists [e]. split; [exact E|]. unfold total. cbn. lia.
Qed.

Lemma emits_ReadByte : weight (EvReadByte None) = 0%nat ->
  (forall b, weight (EvReadByte (Some b)) = 0%nat) ->
  spends_call (emits weight) 0 ReadByte.
Proof.
  intros H0 H1 tcp. unfold ReadByte. destruct (clientR tcp) as [|b r]; cbn [snd].
  - rewrite <- H0. apply emits_log.
  - eapply emits_one; [reflexivity|]. now rewrite H1.
Qed.

Lemma emits_ReadFull : (forall n got, weight (EvReadFull n got) = 0%nat) ->
  forall n, spends_call (emits weight) 0 (ReadFull n).
Proof.
  intros H n tcp. unfold ReadFull.
  destruct (length (firstn n (clientR tcp)) =? n)%nat; cbn [snd];
    (eapply emits_one; [reflexivity|]); now rewrite H.
Qed.

Lemma emits_Write (k : nat -> nat) : (forall b n, weight (EvWrite b n) = k (length b)) ->
  forall b, spends_call (emits weight) (k (length b)) (Write b).
Proof.
  intros H b tcp. unfold Write. destruct (clientW tcp) as [room|]; cbn [snd].
  - destruct (length b <=? room)%nat; cbn [snd];
      (eapply emits_one; [reflexivity|]); now rewrite H.
  - eapply emits_one; [reflexivity|]. now rewrite H.
Qed.

Lemma emits_Compare : (forall x y, weight (EvCompare x y) = 0%nat) ->
  forall x y, spends_call (emits weight) 0 (ConstantTimeCompare x y).
Proof.
  intros H x y tcp. eapply emits_one; [reflexivity|]. now rewrite H.
Qed.

Lemma emits_Dial DialTCP (k : nat) : (forall raddr ok, weight (EvDial raddr ok) = k) ->
  forall raddr, spends_call (emits weight) k (Dial DialTCP raddr).
Proof.
  intros H raddr tcp. unfold Dial.
  destruct (DialTCP raddr); (eapply emits_one; [reflexivity|]); now rewrite H.
Qed.

End Weight.

Lemma Auth_costs (tcp : TCPConn) :
  reads_at_most 770 tcp (snd (Auth tcp))
  /\ emits write_bytes 4 tcp (snd (Auth tcp))
  /\ emits dials 0 tcp (snd (Auth tcp)).
Proof.
  split; [|split].
  - apply (spends_Auth reads_at_most reads_zero reads_add reads_le 1 (fun n => n) (fun _ => 0%nat));
      auto using reads_ReadByte, reads_ReadFull, reads_Write.
    intros x y t. exists []. auto.
  - apply (spends_Auth (emits write_bytes) (emits_zero _) (emits_add _) (emits_le _)
             0 (fun _ => 0%nat) (fun n => n)); auto.
    + now apply emits_ReadByte.
    + now apply emits_ReadFull.
    + now apply (emits_Write write_bytes (fun n => n)).
    + now apply emits_Compare.
  - apply (spends_Auth (emits dials) (emits_zero _) (emits_add _) (emits_le _)
             0 (fun _ => 0%nat) (fun _ => 0%nat)); auto.
    + now apply emits_ReadByte.
    + now apply emits_ReadFull.
    + now apply (emits_Write dials (fun _ => 0%nat)).
    + now apply emits_Compare.
Qed.

Lemma Req_costs DialTCP (tcp : TCPConn) :
  reads_at_most 10 tcp (snd (Req DialTCP tcp))
  /\ emits write_bytes 10 tcp (snd (Req DialTCP tcp))
  /\ emits dials 1 tcp (snd (Req DialTCP tcp)).
Proof.
  split; [|split].
  - apply (spends_Req reads_at_most reads_zero reads_add reads_le (fun n => n) (fun _ => 0%nat)
             reads_ReadFull reads_Write DialTCP 0 (reads_Dial DialTCP)).
    intros srv t. exists []. auto.
  - apply (spends_Req (emits write_bytes) (emits_zero _) (emits_add _) (emits_le _)
             (fun _ => 0%nat) (fun n => n)
             (emits_ReadFull write_bytes (fun _ _ => eq_refl))
             (emits_Write write_bytes (fun n => n) (fun _ _ => eq_refl))
             DialTCP 0 (emits_Dial write_bytes DialTCP 0 (fun _ _ => eq_refl))).
    intros srv t. exists []. rewrite app_nil_r. auto.
  - apply (spends_Req (emits dials) (emits_zero _) (emits_add _) (emits_le _)
             (fun _ => 0%nat) (fun _ => 0%nat)
             (emits_ReadFull dials (fun _ _ => eq_refl))
             (emits_Write dials (fun _ => 0%nat) (fun _ _ => eq_refl))
             DialTCP 1 (emits_Dial dials DialTCP 1 (fun _ _ => eq_refl))).
    intros srv t. exists []. rewrite app_nil_r. auto.
Qed.

(** X4. Whatever the client sends, [Auth] takes at most 770 bytes off its
    buffered reader (five single bytes and three fields of at most 255),
    hands at most 4 bytes to the client, and does not dial. *)
Theorem X4_Auth_reads_and_writes_are_bounded :
  forall tcp : TCPConn,
    reads_at_most 770 tcp (snd (Auth tcp))
    /\ emits write_bytes 4 tcp (snd (Auth tcp))
    /\ emits dials 0 tcp (snd (Auth tcp)).
Proof. exact Auth_costs. Qed.

(** X5. Whatever the client sends, [Req] takes at most 10 bytes off the
    buffered reader, hands at most 10 bytes to the client, and dials at
    most once. *)
Theorem X5_Req_reads_writes_and_dials_are_bounded :
  forall DialTCP (tcp : TCPConn),
    reads_at_most 10 tcp (snd (Req DialTCP tcp))
    /\ emits write_bytes 10 tcp (snd (Req DialTCP tcp))
    /\ emits dials 1 tcp (snd (Req DialTCP tcp)).
Proof. exact Req_costs. Qed.

(** ** The ways of [Req] *)

Lemma bound_address_length srv : length (bound_address srv) = 6%nat.
Proof.
  unfold bound_address, encode_ipv4Addr. cbn [Addr Port].
  now rewrite length_app, copy_length.
Qed.

Lemma total_dials_none evs raddr ok : total dials evs = 0%nat -> ~ In (EvDial raddr ok) evs.
Proof.
  unfold total. induction evs as [|e evs IH]; intros H Hin; [exact Hin|].
  cbn [map list_sum] in H. apply Nat.eq_add_0 in H. destruct H as [He Hrest].
  destruct Hin as [->|Hin]; [discriminate He|].
  now apply IH.
Qed.

(** [Req] on a well-formed request whose dial succeeds, from the dial on. *)
Lemma Req_after_dial DialTCP (a0 a1 a2 a3 p0 p1 : byte) (srv : net.TCPConn) rest cf w s c tr :
  DialTCP {| net.IP := [a0; a1; a2; a3]; net.Port := binary.Uint16 p0 p1 |} = Some srv ->
  Req DialTCP (mkTCPConn cf ([x05; x01; x00; x01] ++ [a0; a1; a2; a3; p0; p1] ++ rest)
                         w s c tr)
  = func (orReturn (Write [x05; x00; x00; x01]) false ;;
          lift (assign_server srv) ;;
          orReturn (Write (bound_address srv)) false ;;
          Return true)
         (mkTCPConn cf rest w s c (tr ++ request_events a0 a1 a2 a3 p0 p1 true)).
Proof.
  intros Hdial. unfold Req, func.
  step. cbn [decode_req nth Ver Cmd Rsv Atyp].
  change (beq x05 x05) with true. change (beq x01 x01) with true.
  change (beq x00 x00) with true. cbn [negb]. do 5 step.
  cbn [decode_ipv4Addr firstn nth Addr Port]. cbv zeta.
  rewrite step_lift. unfold Dial. rewrite Hdial. unfold log.
  cbn [fst snd trace conf clientR clientW server copier].
  unfold request_events. now trace_nf.
Qed.

Lemma Req_header_refused DialTCP (a0 a1 a2 a3 p0 p1 : byte) (srv : net.TCPConn)
    rest cf room s c tr :
  DialTCP {| net.IP := [a0; a1; a2; a3]; net.Port := binary.Uint16 p0 p1 |} = Some srv ->
  (room < 4)%nat ->
  Req DialTCP (mkTCPConn cf ([x05; x01; x00; x01] ++ [a0; a1; a2; a3; p0; p1] ++ rest)
                         (Some room) s c tr)
  = (false, mkTCPConn cf rest (Some 0%nat) s c
              (tr ++ request_events a0 a1 a2 a3 p0 p1 true
                  ++ [EvWrite [x05; x00; x00; x01] room])).
Proof.
  intros Hdial Hroom. rewrite (Req_after_dial _ _ _ _ _ _ _ _ _ _ _ _ _ _ Hdial).
  unfold func. rewrite step_Write_refused by (cbn [length]; lia).
  now rewrite <- app_assoc.
Qed.

Lemma Req_connect DialTCP (a0 a1 a2 a3 p0 p1 : byte) (srv : net.TCPConn) rest cf w s c tr :
  DialTCP {| net.IP := [a0; a1; a2; a3]; net.Port := binary.Uint16 p0 p1 |} = Some srv ->
  has_room 10 w ->
  Req DialTCP (mkTCPConn cf ([x05; x01; x00; x01] ++ [a0; a1; a2; a3; p0; p1] ++ rest)
                         w s c tr)
  = (true, mkTCPConn cf rest (less_room 10 w) (Some srv) c
             (tr ++ request_events a0 a1 a2 a3 p0 p1 true
                 ++ [EvWrite [x05; x00; x00; x01] 4; EvWrite (bound_address srv) 6])).
Proof.
  intros Hdial Hw. destruct (has_room_less 4 6 w Hw) as [Hw1 Hw2].
  rewrite (Req_after_dial _ _ _ _ _ _ _ _ _ _ _ _ _ _ Hdial).
  unfold func. step. rewrite step_lift. unfold assign_server, set_server.
  cbn [fst snd trace conf clientR clientW server copier length].
  rewrite step_Write by (rewrite bound_address_length; exact Hw2).
  rewrite bound_address_length, less_room_less. unfold Return. now trace_nf.
Qed.

(** Every run of [Req] is of one of five kinds: it stops before the dial;
    the dial fails; the client refuses the header of the reply; the client
    refuses the bound address; or it succeeds. *)
Lemma Req_cases DialTCP cf r w s c tr :
  (exists evs r',
      Req DialTCP (mkTCPConn cf r w s c tr) = (false, mkTCPConn cf r' w s c (tr ++ evs))
      /\ total dials evs = 0%nat)
  \/ exists (a0 a1 a2 a3 p0 p1 : byte) (rest : list byte),
      r = [x05; x01; x00; x01] ++ [a0; a1; a2; a3; p0; p1] ++ rest
      /\ let raddr := {| net.IP := [a0; a1; a2; a3]; net.Port := binary.Uint16 p0 p1 |} in
         (DialTCP raddr = None
          /\ exists n w',
              Req DialTCP (mkTCPConn cf r w s c tr)
              = (false, mkTCPConn cf rest w' s c
                          (tr ++ request_events a0 a1 a2 a3 p0 p1 false
                              ++ [EvWrite [x05; x01; x00; x01] n])))
         \/ exists srv, DialTCP raddr = Some srv
            /\ ((~ has_room 4 w
                 /\ exists n,
                     Req DialTCP (mkTCPConn cf r w s c tr)
                     = (false, mkTCPConn cf rest (Some 0%nat) s c
                                 (tr ++ request_events a0 a1 a2 a3 p0 p1 true
                                     ++ [EvWrite [x05; x00; x00; x01] n])))
                \/ (has_room 4 w /\ ~ has_room 6 (less_room 4 w)
                    /\ exists n,
                        Req DialTCP (mkTCPConn cf r w s c tr)
                        = (false, mkTCPConn cf rest (Some 0%nat) (Some srv) c
                                    (tr ++ request_events a0 a1 a2 a3 p0 p1 true
                                        ++ [EvWrite [x05; x00; x00; x01] 4;
                                            EvWrite (bound_address srv) n])))
                \/ (has_room 10 w
                    /\ Req DialTCP (mkTCPConn cf r w s c tr)
                       = (true, mkTCPConn cf rest (less_room 10 w) (Some srv) c
                                  (tr ++ request_events a0 a1 a2 a3 p0 p1 true
                                      ++ [EvWrite [x05; x00; x00; x01] 4;
                                          EvWrite (bound_address srv) 6])))).
Proof.
  destruct (Nat.lt_ge_cases (length r) 4) as [Hshort|Hlong].
  { left. exists [EvReadFull 4 r], []. split; [|reflexivity].
    unfold Req, func. now rewrite step_binary_Read_short by exact Hshort. }
  destruct (split_at 4 r Hlong) as (hdr & r1 & -> & Hh).
  destruct hdr as [|ver [|cmd [|rsv [|atyp [|x hdr]]]]]; try discriminate Hh. clear Hh Hlong.
  destruct (Byte.byte_eq_dec ver x05) as [->|Hver];
    [|left; exists [EvReadFull 4 [ver; cmd; rsv; atyp]], r1; split; [|reflexivity];
      apply Req_bad_header; auto].
  destruct (Byte.byte_eq_dec cmd x01) as [->|Hcmd];
    [|left; exists [EvReadFull 4 [x05; cmd; rsv; atyp]], r1; split; [|reflexivity];
      apply Req_bad_header; auto].
  destruct (Byte.byte_eq_dec rsv x00) as [->|Hrsv];
    [|left; exists [EvReadFull 4 [x05; x01; rsv; atyp]], r1; split; [|reflexivity];
      apply Req_bad_header; auto].
  destruct (Byte.byte_eq_dec atyp x01) as [->|Hatyp];
    [|left; exists [EvReadFull 4 [x05; x01; x00; atyp]], r1; split; [|reflexivity];
      apply Req_bad_header; auto 6].
  destruct (Nat.lt_ge_cases (length r1) 6) as [Hshort|Hlong].
  { left. exists [EvReadFull 4 [x05; x01; x00; x01]; EvReadFull 6 r1], [].
    split; [|reflexivity].
    unfold Req, func. step. cbn [decode_req nth Ver Cmd Rsv Atyp].
    change (beq x05 x05) with true. change (beq x01 x01) with true.
    change (beq x00 x00) with true. cbn [negb]. do 4 step.
    rewrite step_binary_Read_short by exact Hshort. now trace_nf. }
  destruct (split_at 6 r1 Hlong) as (addr & rest & -> & Ha).
  destruct addr as [|a0 [|a1 [|a2 [|a3 [|p0 [|p1 [|x addr]]]]]]]; try discriminate Ha.
  clear Ha Hlong.
  right. exists a0, a1, a2, a3, p0, p1, rest. split; [reflexivity|]. cbv zeta.
  destruct (DialTCP {| net.IP := [a0; a1; a2; a3]; net.Port := binary.Uint16 p0 p1 |})
    as [srv|] eqn:Hdial.
  2:{ left. split; [reflexivity|].
      destruct (Req_dial_failure DialTCP a0 a1 a2 a3 p0 p1 rest cf w s c tr Hdial)
        as (n & w' & E & _).
      exists n, w'. exact E. }
  right. exists srv. split; [reflexivity|].
  assert (Hb : length (bound_address srv) = 6%nat) by apply bound_address_length.
  rewrite (Req_after_dial DialTCP a0 a1 a2 a3 p0 p1 srv rest cf w s c tr Hdial). unfold func.
  destruct (has_room_dec 4 w) as [Hw1|Hw1].
  - right. step.
    rewrite step_lift. unfold assign_server, set_server.
    cbn [fst snd trace conf clientR clientW server copier length].
    destruct (has_room_dec 6 (less_room 4 w)) as [Hw2|Hw2].
    + right. split; [now apply (has_room_more 4 6)|].
      rewrite step_Write by (rewrite Hb; exact Hw2).
      rewrite Hb, less_room_less. unfold Return. now trace_nf.
    + left. split; [exact Hw1|]. split; [exact Hw2|].
      destruct (less_room 4 w) as [room|]; [|exfalso; apply Hw2; exact I].
      cbn [has_room] in Hw2.
      rewrite step_Write_refused by (rewrite Hb; lia).
      exists room. now trace_nf.
  - left. split; [exact Hw1|].
    destruct w as [room|]; [|exfalso; apply Hw1; exact I].
    cbn [has_room] in Hw1.
    rewrite step_Write_refused by (cbn [length]; lia).
    exists room. now rewrite <- app_assoc.
Qed.

Lemma Uint16_range (b0 b1 : byte) : 0 <= binary.Uint16 b0 b1 < 2 ^ 16.
Proof.
  unfold binary.Uint16. pose proof (u8_range b0). pose proof (u8_range b1).
  apply below_pow2_lor; [lia|lia|].
  rewrite Z.shiftl_mul_pow2 by lia. lia.
Qed.

(** X6. [Req] returns true only on a request [05 01 00 01] followed by a
    4-byte address and a 2-byte port, after a successful dial of exactly
    that address and port, and after the client accepted the ten bytes
    of the reply; [tcp.server] is then the dialled connection, and the
    bytes read are those ten of the request and no more. *)
Theorem X6_Req_accepts_only_dialled_connects :
  forall DialTCP (tcp : TCPConn),
    fst (Req DialTCP tcp) = true ->
    exists (a0 a1 a2 a3 p0 p1 : byte) (srv : net.TCPConn),
      clientR tcp
      = [x05; x01; x00; x01] ++ [a0; a1; a2; a3; p0; p1] ++ clientR (snd (Req DialTCP tcp))
      /\ DialTCP {| net.IP := [a0; a1; a2; a3]; net.Port := binary.Uint16 p0 p1 |} = Some srv
      /\ has_room 10 (clientW tcp)
      /\ server (snd (Req DialTCP tcp)) = Some srv
      /\ trace (snd (Req DialTCP tcp))
         = trace tcp ++ request_events a0 a1 a2 a3 p0 p1 true
             ++ [EvWrite [x05; x00; x00; x01] 4; EvWrite (bound_address srv) 6].
Proof.
  intros DialTCP [cf r w s c tr] H.
  destruct (Req_cases DialTCP cf r w s c tr)
    as [(evs & r' & E & _)
       |(a0 & a1 & a2 & a3 & p0 & p1 & rest & -> &
         [(_ & n & w' & E)
         |(srv & Hdial & [(_ & n & E)|[(_ & _ & n & E)|(Hw & E)]])])];
    rewrite E in H; try discriminate H.
  exists a0, a1, a2, a3, p0, p1, srv. rewrite E.
  cbn [snd clientR clientW server trace]. auto.
Qed.

Lemma X6_Req_accepts_only_dialled_connects_witness :
  exists srv : net.TCPConn,
    reachable {| net.IP := [x7f; x00; x00; x01]; net.Port := 80 |} = Some srv
    /\ server (snd (Req reachable
                      (mkTCPConn users1 connect_127_0_0_1_80 None None false [])))
       = Some srv.
Proof.
  destruct (X6_Req_accepts_only_dialled_connects reachable
              (mkTCPConn users1 connect_127_0_0_1_80 None None false []) eq_refl)
    as (a0 & a1 & a2 & a3 & p0 & p1 & srv & E & Hdial & _ & Hsrv & _).
  exists srv. split; [|exact Hsrv].
  cbn [clientR] in E. unfold connect_127_0_0_1_80 in E.
  cbn [app] in E. inversion E. subst. exact Hdial.
Defined.

(** X7. [Req] dials nothing but what the client asked for: every dial it
    makes comes after a header [05 01 00 01], goes to the four address
    bytes that follow it, and to the port, below 65536, that the next two
    bytes give in big-endian order. *)
Theorem X7_Req_dials_the_requested_address :
  forall DialTCP (tcp : TCPConn),
    exists evs,
      trace (snd (Req DialTCP tcp)) = trace tcp ++ evs
      /\ forall raddr ok,
           In (EvDial raddr ok) evs ->
           length (net.IP raddr) = 4%nat
           /\ 0 <= net.Port raddr < 2 ^ 16
           /\ exists (p0 p1 : byte) (rest : list byte),
                clientR tcp = [x05; x01; x00; x01] ++ net.IP raddr ++ [p0; p1] ++ rest
                /\ net.Port raddr = binary.Uint16 p0 p1.
Proof.
  intros DialTCP [cf r w s c tr].
  assert (Hdialled : forall a0 a1 a2 a3 p0 p1 rest dialled tail raddr ok,
             r = [x05; x01; x00; x01] ++ [a0; a1; a2; a3; p0; p1] ++ rest ->
             (forall e, In e tail -> dials e = 0%nat) ->
             In (EvDial raddr ok) (request_events a0 a1 a2 a3 p0 p1 dialled ++ tail) ->
             length (net.IP raddr) = 4%nat
             /\ 0 <= net.Port raddr < 2 ^ 16
             /\ exists (q0 q1 : byte) (rest' : list byte),
                  r = [x05; x01; x00; x01] ++ net.IP raddr ++ [q0; q1] ++ rest'
                  /\ net.Port raddr = binary.Uint16 q0 q1).
  { intros a0 a1 a2 a3 p0 p1 rest dialled tail raddr ok -> Htail Hin.
    apply in_app_or in Hin. destruct Hin as [Hin|Hin].
    - cbn in Hin. destruct Hin as [Hin|[Hin|[Hin|[]]]]; try discriminate Hin.
      injection Hin as <- _. cbn [net.IP net.Port].
      split; [reflexivity|]. split; [apply Uint16_range|].
      exists p0, p1, rest. auto.
    - apply Htail in Hin. discriminate Hin. }
  cbn [trace clientR].
  destruct (Req_cases DialTCP cf r w s c tr)
    as [(evs & r' & E & Hnone)
       |(a0 & a1 & a2 & a3 & p0 & p1 & rest & Hr &
         [(_ & n & w' & E)
         |(srv & _ & [(_ & n & E)|[(_ & _ & n & E)|(_ & E)]])])];
    rewrite E; cbn [snd trace]; eexists; (split; [reflexivity|]); intros raddr ok Hin.
  - exfalso. exact (total_dials_none _ _ _ Hnone Hin).
  - apply (Hdialled _ _ _ _ _ _ _ _ _ _ _ Hr) in Hin; [exact Hin|].
    intros e [<-|[]]. reflexivity.
  - apply (Hdialled _ _ _ _ _ _ _ _ _ _ _ Hr) in Hin; [exact Hin|].
    intros e [<-|[]]. reflexivity.
  - apply (Hdialled _ _ _ _ _ _ _ _ _ _ _ Hr) in Hin; [exact Hin|].
    intros e [<-|[<-|[]]]; reflexivity.
  - apply (Hdialled _ _ _ _ _ _ _ _ _ _ _ Hr) in Hin; [exact Hin|].
    intros e [<-|[<-|[]]]; reflexivity.
Qed.

(** ** Sessions as a whole *)

Lemma handshake_closes tr :
  Forall handshake tr -> closes_server tr = 0%nat /\ closes_client tr = 0%nat.
Proof.
  intros F. apply closes_none. exact (Forall_impl _ handshake_not_close F).
Qed.

(** X8. When the dial succeeds but the client no longer accepts the four
    header bytes of the reply, [Req] returns false without having stored
    the dialled connection in [tcp.server]: the session then calls
    [Close] on the client stream only, and never on the connection it
    opened. *)
Theorem X8_refused_reply_header_leaves_connection_open :
  forall DialTCP relay (c : ClientConn) (cf : Config)
         (a0 a1 a2 a3 p0 p1 : byte) (rest : list byte) (srv : net.TCPConn),
    let authed := Auth (NewTCPConn c cf) in
    let raddr := {| net.IP := [a0; a1; a2; a3]; net.Port := binary.Uint16 p0 p1 |} in
    let final := session DialTCP relay c cf in
    fst authed = true ->
    clientR (snd authed) = [x05; x01; x00; x01] ++ [a0; a1; a2; a3; p0; p1] ++ rest ->
    DialTCP raddr = Some srv ->
    ~ has_room 4 (clientW (snd authed)) ->
    In (EvDial raddr true) (trace final)
    /\ server final = None
    /\ closes_server (trace final) = 0%nat
    /\ closes_client (trace final) = 1%nat.
Proof.
  intros DialTCP relay c cf a0 a1 a2 a3 p0 p1 rest srv authed raddr final HA HR Hdial Hw.
  destruct (after_Auth c cf) as (Hs & Hc & F). fold authed in Hs, Hc, F.
  pose proof (session_Req_false DialTCP relay c cf HA) as ES.
  fold authed in ES. fold final in ES.
  destruct (snd authed) as [cf' r w s co tr].
  cbn [clientR server clientW trace copier] in *. subst r s co.
  destruct w as [room|]; [|exfalso; apply Hw; exact I]. cbn [has_room] in Hw.
  pose proof (Req_header_refused DialTCP a0 a1 a2 a3 p0 p1 srv rest cf' room None false tr
                Hdial ltac:(lia)) as EQ.
  rewrite ES by (rewrite EQ; reflexivity). rewrite EQ. cbn [snd].
  unfold Close. cbn [server log trace].
  destruct (handshake_closes tr F) as [Z1 Z2].
  rewrite !closes_server_app, !closes_client_app, Z1, Z2.
  repeat split.
  apply in_or_app. left. apply in_or_app. right. apply in_or_app. left.
  unfold request_events. simpl. auto.
Qed.

Lemma X8_refused_reply_header_leaves_connection_open_witness :
  let final := session reachable []
                 {| incoming := greeting_auth ++ connect_127_0_0_1_80;
                    accepts := Some 4%nat |} users1 in
  server final = None /\ closes_server (trace final) = 0%nat.
Proof.
  assert (Hw : ~ has_room 4 (Some 0%nat)) by (simpl; lia).
  destruct (X8_refused_reply_header_leaves_connection_open reachable []
              {| incoming := greeting_auth ++ connect_127_0_0_1_80;
                 accepts := Some 4%nat |} users1
              x7f x00 x00 x01 x00 x50 []
              {| net.LocalAddr := {| net.IP := [xc0; xa8; x00; x02]; net.Port := 51234 |} |}
              eq_refl eq_refl eq_refl Hw) as (_ & Hs & Hc & _).
  split; [exact Hs|exact Hc].
Defined.

Lemma relaying_no_dial evs : Forall relaying evs -> total dials evs = 0%nat.
Proof.
  unfold total. induction 1 as [|e evs He _ IH]; [reflexivity|].
  change (list_sum (map dials (e :: evs))) with (dials e + list_sum (map dials evs))%nat.
  rewrite IH. now destruct e.
Qed.

Lemma goroutine_copy_relaying more accepted tcp :
  exists evs, trace (goroutine_copy more accepted tcp) = trace tcp ++ evs
              /\ Forall relaying evs.
Proof.
  unfold goroutine_copy.
  destruct (copier tcp); cbn [negb]; [|exists []; now rewrite app_nil_r].
  destruct (firstn (S more) (clientR tcp)) as [|b0 b].
  - exists [EvGoroutineEnd]. split; [reflexivity|]. repeat constructor.
  - destruct accepted; cbn [trace log set_clientR set_copier].
    + eexists [_]. split; [reflexivity|]. repeat constructor.
    + eexists [_; _]. rewrite <- app_assoc. split; [reflexivity|]. repeat constructor.
Qed.

Lemma Run_copy_relaying events : forall tcp,
  exists evs, trace (snd (Run_copy events tcp)) = trace tcp ++ evs /\ Forall relaying evs.
Proof.
  induction events as [|ev events IH]; intros tcp; cbn [Run_copy].
  - exists []. now rewrite app_nil_r.
  - destruct ev as [more accepted|b|].
    + destruct (IH (goroutine_copy more accepted tcp)) as (e2 & E2 & F2).
      destruct (goroutine_copy_relaying more accepted tcp) as (e1 & E1 & F1).
      exists (e1 ++ e2). rewrite E2, E1, app_assoc. split; [reflexivity|].
      apply Forall_app. auto.
    + destruct (Write_trace b tcp) as [n E1].
      destruct (Write b tcp) as [[[]|] tcp'] eqn:EW; cbn [snd] in *.
      * destruct (IH tcp') as (e2 & E2 & F2).
        exists ([EvWrite b n] ++ e2). rewrite E2, E1, app_assoc.
        split; [reflexivity|]. apply Forall_app. split; [|exact F2].
        repeat constructor.
      * exists [EvWrite b n]. split; [exact E1|]. repeat constructor.
    + exists []. now rewrite app_nil_r.
Qed.

(** The trace of a session, stage by stage: [Auth], [Req], the rest. *)
Lemma session_trace DialTCP relay c cf :
  let authed := Auth (NewTCPConn c cf) in
  exists evsA evsR rest,
    trace (session DialTCP relay c cf) = evsA ++ evsR ++ rest
    /\ total dials evsA = 0%nat
    /\ (total dials evsR <= 1)%nat
    /\ total dials rest = 0%nat
    /\ (fst authed = false -> evsR = []).
Proof.
  intros authed.
  set (dialled := Req DialTCP (snd authed)).
  destruct (Auth_costs (NewTCPConn c cf)) as (_ & _ & (evsA & EA & LA)).
  fold authed in EA. cbn [trace NewTCPConn app] in EA.
  destruct (Req_costs DialTCP (snd authed)) as (_ & _ & (evsR & ER & LR)).
  fold dialled in ER. rewrite EA in ER.
  assert (LA0 : total dials evsA = 0%nat) by lia.
  destruct (fst authed) eqn:HAok.
  - destruct (fst dialled) eqn:HRok.
    + exists evsA, evsR.
      pose proof (session_relays DialTCP relay c cf HAok HRok) as ES.
      fold authed in ES. fold dialled in ES.
      unfold Run in ES.
      destruct (Run_copy_relaying relay (set_copier true (log EvRun (snd dialled))))
        as (evs & E & F).
      cbn [trace set_copier log] in E. rewrite ER in E.
      set (run := Run_copy relay (set_copier true (log EvRun (snd dialled)))) in *.
      assert (Hend : exists tail, trace (session DialTCP relay c cf)
                                  = trace (snd run) ++ tail
                                  /\ total dials tail = 0%nat).
      { rewrite ES. unfold goroutine_wakes.
        destruct (fst run).
        - destruct (copier (Close (snd run)) && _); cbn [trace log set_copier];
            rewrite Close_trace; destruct (server (snd run)); eexists;
              (split; [rewrite <- ?app_assoc; reflexivity|reflexivity]).
        - destruct (copier (snd run) && _); cbn [trace log set_copier];
            [eexists; split; [reflexivity|reflexivity]|].
          exists []. now rewrite app_nil_r. }
      destruct Hend as (tail & Et & Lt).
      exists ([EvRun] ++ evs ++ tail). rewrite Et, E.
      split; [now rewrite <- !app_assoc|].
      split; [exact LA0|]. split; [exact LR|].
      split; [|discriminate].
      rewrite !total_app, Lt, (relaying_no_dial evs F). reflexivity.
    + exists evsA, evsR.
      pose proof (session_Req_false DialTCP relay c cf HAok HRok) as ES.
      fold authed in ES. fold dialled in ES. rewrite ES, Close_trace, ER.
      eexists. split; [rewrite <- !app_assoc; reflexivity|].
      split; [exact LA0|]. split; [exact LR|].
      split; [|discriminate]. now destruct (server (snd dialled)).
  - exists evsA, [], [EvCloseClient].
    rewrite (session_Auth_false DialTCP relay c cf HAok). fold authed.
    cbn [trace log]. rewrite EA.
    split; [reflexivity|]. split; [exact LA0|].
    split; [cbn; lia|]. split; reflexivity.
Qed.

(** X9. A session dials at most once, and only for a client that [Auth]
    has accepted. *)
Theorem X9_session_dials_once_after_authentication :
  forall DialTCP relay (c : ClientConn) (cf : Config),
    (total dials (trace (session DialTCP relay c cf)) <= 1)%nat
    /\ forall raddr ok,
         In (EvDial raddr ok) (trace (session DialTCP relay c cf)) ->
         fst (Auth (NewTCPConn c cf)) = true.
Proof.
  intros DialTCP relay c cf.
  destruct (session_trace DialTCP relay c cf) as (evsA & evsR & rest & E & LA & LR & Lr & Hno).
  rewrite E. split.
  - rewrite !total_app. lia.
  - intros raddr ok Hin.
    destruct (fst (Auth (NewTCPConn c cf))) eqn:HA; [reflexivity|exfalso].
    rewrite (Hno eq_refl) in Hin. cbn [app] in Hin.
    apply in_app_or in Hin. destruct Hin as [Hin|Hin].
    + exact (total_dials_none _ _ _ LA Hin).
    + exact (total_dials_none _ _ _ Lr Hin).
Qed.

Lemma Close_server tcp : server (Close tcp) = server tcp.
Proof.
  unfold Close. destruct (server tcp) eqn:E; exact E.
Qed.

Lemma goroutine_wakes_server tcp : server (goroutine_wakes tcp) = server tcp.
Proof.
  unfold goroutine_wakes. now destruct (copier tcp && _).
Qed.

(** X10. Every session whose [runTCPConn] returns has closed the client
    stream exactly once, and the destination connection exactly once if
    one is stored in [tcp.server] and not at all otherwise; a session
    still blocked in [Run] has closed nothing. *)
Theorem X10_every_returning_session_closes_once :
  forall DialTCP relay (c : ClientConn) (cf : Config),
    let authed := Auth (NewTCPConn c cf) in
    let dialled := Req DialTCP (snd authed) in
    let run := Run relay (snd dialled) in
    let blocked := fst authed && fst dialled && negb (fst run) in
    let final := session DialTCP relay c cf in
    closes_client (trace final) = (if blocked then 0 else 1)%nat
    /\ closes_server (trace final)
       = (if blocked then 0 else match server final with Some _ => 1 | None => 0 end)%nat.
Proof.
  intros DialTCP relay c cf authed dialled run blocked final.
  destruct (after_Auth c cf) as (Hs1 & _ & F1).
  destruct (after_Req DialTCP c cf) as (_ & F2).
  fold authed in Hs1, F1, F2. fold dialled in F2.
  destruct (handshake_closes _ F1) as [A1 A2].
  destruct (handshake_closes _ F2) as [Z1 Z2].
  unfold blocked, final.
  destruct (fst authed) eqn:HA; cbn [andb].
  - destruct (fst dialled) eqn:HR; cbn [andb].
    + pose proof (Req_true_server DialTCP (snd authed) HR) as Hsrv.
      destruct (Run_relays relay (snd dialled)) as (Rs & R1 & R2).
      rewrite (session_relays DialTCP relay c cf HA HR).
      fold authed. fold dialled. fold run. fold dialled in Hsrv. fold run in Rs, R1, R2.
      destruct (fst run); cbn [negb].
      * rewrite goroutine_wakes_server, Close_server, Rs.
        destruct (goroutine_wakes_closes (Close (snd run))) as [-> ->].
        destruct (Close_closes (snd run)) as [-> ->]; [congruence|].
        rewrite R1, R2, Z1, Z2.
        destruct (server (snd dialled)); [auto|congruence].
      * destruct (goroutine_wakes_closes (snd run)) as [-> ->].
        rewrite R1, R2, Z1, Z2. auto.
    + rewrite (session_Req_false DialTCP relay c cf HA HR).
      fold authed. fold dialled. rewrite Close_server, Close_trace.
      rewrite !closes_server_app, !closes_client_app, Z1, Z2.
      now destruct (server (snd dialled)).
  - rewrite (session_Auth_false DialTCP relay c cf HA). fold authed.
    cbn [trace log server]. rewrite Hs1, closes_server_app, closes_client_app, A1, A2.
    auto.
Qed.

(** ** The relay *)

Lemma forwarded_app a b : forwarded (a ++ b) = forwarded a ++ forwarded b.
Proof.
  induction a as [|[] a IH]; simpl; rewrite ?IH, ?app_assoc; congruence.
Qed.

Lemma goroutine_copy_forwards more accepted tcp :
  forwarded (trace (goroutine_copy more accepted tcp)) ++ clientR (goroutine_copy more accepted tcp)
  = forwarded (trace tcp) ++ clientR tcp.
Proof.
  unfold goroutine_copy. destruct (copier tcp); cbn [negb]; [|reflexivity].
  destruct (firstn (S more) (clientR tcp)) as [|b0 b] eqn:E.
  - cbn [trace clientR log set_copier]. rewrite forwarded_app. cbn. now rewrite app_nil_r.
  - pose proof (firstn_skipn (S more) (clientR tcp)) as Hsplit. rewrite E in Hsplit.
    destruct accepted; cbn [trace clientR log set_copier set_clientR];
      rewrite ?forwarded_app; cbn [forwarded]; rewrite ?app_nil_r, <- ?app_assoc;
      now rewrite Hsplit.
Qed.

Lemma Write_forwarded b tcp : forwarded (trace (snd (Write b tcp))) = forwarded (trace tcp).
Proof.
  destruct (Write_trace b tcp) as [n ->]. rewrite forwarded_app. cbn. apply app_nil_r.
Qed.

Lemma Run_copy_forwards events : forall tcp,
  forwarded (trace (snd (Run_copy events tcp))) ++ clientR (snd (Run_copy events tcp))
  = forwarded (trace tcp) ++ clientR tcp.
Proof.
  induction events as [|ev events IH]; intros tcp; cbn [Run_copy]; [reflexivity|].
  destruct ev as [more accepted|b|].
  - rewrite IH. apply goroutine_copy_forwards.
  - pose proof (Write_forwarded b tcp) as Hf. pose proof (Write_clientR b tcp) as Hr.
    destruct (Write b tcp) as [[[]|] tcp']; cbn [snd] in *.
    + rewrite IH. congruence.
    + congruence.
  - reflexivity.
Qed.

(** X11. The goroutine of [Run] passes the client's bytes on unchanged
    and in order: at any point of the relay, the buffers it has handed to
    [server.Write], joined, followed by what is still unread, are the
    client's stream as [Run] found it (with the bytes that followed the
    request first). *)
Theorem X11_relay_forwards_client_bytes_in_order :
  forall relay (tcp : TCPConn),
    forwarded (trace (snd (Run relay tcp))) ++ clientR (snd (Run relay tcp))
    = forwarded (trace tcp) ++ clientR tcp.
Proof.
  intros relay tcp. unfold Run. rewrite Run_copy_forwards.
  cbn [trace clientR set_copier log]. rewrite forwarded_app. cbn.
  now rewrite app_nil_r.
Qed.

Lemma goroutine_copy_client more accepted tcp :
  writes (trace (goroutine_copy more accepted tcp)) = writes (trace tcp)
  /\ sent (trace (goroutine_copy more accepted tcp)) = sent (trace tcp)
  /\ clientW (goroutine_copy more accepted tcp) = clientW tcp.
Proof.
  unfold goroutine_copy. destruct (copier tcp); cbn [negb]; [|auto].
  destruct (firstn (S more) (clientR tcp)); [|destruct accepted];
    cbn [trace clientW log set_copier set_clientR];
    rewrite ?writes_app, ?sent_app; cbn; rewrite ?app_nil_r; auto.
Qed.

Lemma handed_prefix chunks : forall w, exists rest, chunks = handed w chunks ++ rest.
Proof.
  induction chunks as [|b chunks IH]; intros w; cbn [handed]; [now exists []|].
  destruct w as [room|].
  - destruct (length b <=? room)%nat.
    + destruct (IH (Some (room - length b)%nat)) as [rest E].
      exists rest. cbn [app]. now rewrite <- E.
    + now exists chunks.
  - destruct (IH None) as [rest E]. exists rest. cbn [app]. now rewrite <- E.
Qed.

Lemma handed_unlimited chunks : handed None chunks = chunks.
Proof.
  induction chunks as [|b chunks IH]; cbn [handed]; congruence.
Qed.

(** What [Run]'s own copy hands to the client, and what of it arrives. *)
Lemma Run_copy_hands events : forall tcp,
  writes (trace (snd (Run_copy events tcp)))
  = writes (trace tcp) ++ handed (clientW tcp) (server_chunks events)
  /\ sent (trace (snd (Run_copy events tcp)))
     = sent (trace tcp) ++ within (clientW tcp) (concat (server_chunks events)).
Proof.
  induction events as [|ev events IH]; intros tcp; cbn [Run_copy server_chunks].
  - cbn [handed concat snd]. unfold within.
    destruct (clientW tcp); rewrite ?firstn_nil, !app_nil_r; auto.
  - destruct ev as [more accepted|b|].
    + destruct (IH (goroutine_copy more accepted tcp)) as [Hw Hs].
      destruct (goroutine_copy_client more accepted tcp) as (E1 & E2 & E3).
      rewrite Hw, Hs, E1, E2, E3. auto.
    + cbn [handed concat]. unfold Write.
      destruct (clientW tcp) as [room|] eqn:EW.
      * destruct (Nat.leb_spec (length b) room) as [Hfit|Hover].
        -- destruct (IH (log (EvWrite b (length b))
                           (set_clientW (Some (room - length b)%nat) tcp))) as [Hw Hs].
           rewrite Hw, Hs. cbn [trace clientW log set_clientW].
           rewrite writes_app, sent_app. cbn [writes sent within].
           rewrite firstn_all, !app_nil_r, <- !app_assoc. cbn [app].
           split; [reflexivity|]. f_equal.
           rewrite firstn_app, (firstn_all2 b) by lia. reflexivity.
        -- cbn [snd trace log set_clientW].
           rewrite writes_app, sent_app. cbn [writes sent within].
           rewrite !app_nil_r. split; [reflexivity|]. f_equal.
           rewrite firstn_app.
           replace (room - length b)%nat with 0%nat by lia.
           cbn [firstn]. now rewrite app_nil_r.
      * destruct (IH (log (EvWrite b (length b)) tcp)) as [Hw Hs].
        rewrite Hw, Hs. cbn [trace clientW log]. rewrite EW.
        rewrite writes_app, sent_app. cbn [writes sent within].
        rewrite firstn_all, !app_nil_r, <- !app_assoc. cbn [app]. auto.
    + cbn [handed concat snd]. unfold within.
      destruct (clientW tcp); rewrite ?firstn_nil, !app_nil_r; auto.
Qed.

(** X12. [Run]'s own copy passes the destination's data on unchanged and
    in order.  The buffers it hands to the client are exactly the chunks
    read from the destination before the end of its stream, each as long
    as the ones before it were accepted, up to and with the first one the
    client refuses: all of them when the client never refuses a write.
    The bytes that reach the client are exactly the bytes of those chunks
    that the client connection has room for. *)
Theorem X12_relay_returns_destination_bytes_in_order :
  forall relay (tcp : TCPConn),
    writes (trace (snd (Run relay tcp)))
    = writes (trace tcp) ++ handed (clientW tcp) (server_chunks relay)
    /\ sent (trace (snd (Run relay tcp)))
       = sent (trace tcp) ++ within (clientW tcp) (concat (server_chunks relay))
    /\ (clientW tcp = None ->
        writes (trace (snd (Run relay tcp))) = writes (trace tcp) ++ server_chunks relay)
    /\ exists rest,
         server_chunks relay = handed (clientW tcp) (server_chunks relay) ++ rest.
Proof.
  intros relay tcp. unfold Run.
  destruct (Run_copy_hands relay (set_copier true (log EvRun tcp))) as [Hw Hs].
  cbn [trace clientW set_copier log] in Hw, Hs.
  rewrite writes_app in Hw. rewrite sent_app in Hs.
  cbn [writes sent] in Hw, Hs. rewrite app_nil_r in Hw, Hs.
  split; [exact Hw|]. split; [exact Hs|]. split.
  - intros Hnone. rewrite Hw, Hnone. now rewrite handed_unlimited.
  - apply handed_prefix.
Qed.

(** ** The address codec, both ways *)

Lemma lor_low_high (a b : Z) :
  0 <= a < 2 ^ 8 -> 0 <= b -> Z.lor a (Z.shiftl b 8) = a + b * 2 ^ 8.
Proof.
  intros Ha Hb.
  assert (Hland : Z.land a (Z.shiftl b 8) = 0).
  { apply Z.bits_inj'. intros n Hn. rewrite Z.land_spec, Z.bits_0.
    destruct (Z.ltb_spec n 8).
    - rewrite Z.shiftl_spec_low by lia. apply andb_false_r.
    - rewrite <- (Z.mod_small a (2 ^ 8)) by lia.
      rewrite Z.mod_pow2_bits_high by lia. reflexivity. }
  rewrite <- Z.lxor_lor by exact Hland.
  rewrite <- Z.add_nocarry_lxor by exact Hland.
  now rewrite Z.shiftl_mul_pow2 by lia.
Qed.

Lemma to_byte_of (v : Z) (b : byte) : v mod 256 = u8 b -> to_byte v = b.
Proof.
  intros H. apply u8_inj. now rewrite u8_to_byte.
Qed.

Lemma PutUint16_Uint16 (b0 b1 : byte) : binary.PutUint16 (binary.Uint16 b0 b1) = [b0; b1].
Proof.
  unfold binary.PutUint16, binary.Uint16.
  pose proof (u8_range b0) as H0. pose proof (u8_range b1) as H1.
  rewrite lor_low_high by lia.
  rewrite Z.shiftr_div_pow2 by lia.
  change (2 ^ 8) with 256.
  f_equal; [|f_equal]; apply to_byte_of.
  - rewrite Z.div_add by lia. rewrite (Z.div_small (u8 b1)) by lia.
    cbn [Z.add]. apply Z.mod_small. lia.
  - rewrite Z.mod_add by lia. apply Z.mod_small. lia.
Qed.

(** X13. The encoding of an [ipv4Addr] that [Req] writes and the decoding
    it reads are inverse to each other: a 4-byte address with a port
    below 65536 survives encoding and decoding, and any six bytes survive
    decoding and encoding. *)
Theorem X13_address_codec_round_trips :
  forall (a : ipv4Addr) (b : list byte),
    length (Addr a) = 4%nat ->
    0 <= Port a < 2 ^ 16 ->
    length b = 6%nat ->
    decode_ipv4Addr (encode_ipv4Addr a) = a
    /\ encode_ipv4Addr (decode_ipv4Addr b) = b.
Proof.
  intros [addr port] b Ha Hp Hb. cbn [Addr Port] in *. split.
  - destruct addr as [|a0 [|a1 [|a2 [|a3 [|x addr]]]]]; try discriminate Ha.
    unfold encode_ipv4Addr, decode_ipv4Addr.
    cbn [Addr Port app firstn nth binary.PutUint16].
    f_equal. now apply Uint16_PutUint16.
  - destruct b as [|a0 [|a1 [|a2 [|a3 [|p0 [|p1 [|x b]]]]]]]; try discriminate Hb.
    unfold encode_ipv4Addr, decode_ipv4Addr. cbn [Addr Port firstn nth].
    rewrite PutUint16_Uint16. reflexivity.
Qed.

Lemma X13_address_codec_round_trips_witness :
  decode_ipv4Addr (encode_ipv4Addr {| Addr := [x7f; x00; x00; x01]; Port := 8080 |})
  = {| Addr := [x7f; x00; x00; x01]; Port := 8080 |}
  /\ encode_ipv4Addr (decode_ipv4Addr [xc0; xa8; x00; x02; xc8; x22])
     = [xc0; xa8; x00; x02; xc8; x22].
Proof.
  assert (Hp : 0 <= 8080 < 2 ^ 16) by (split; [discriminate|reflexivity]).
  exact (X13_address_codec_round_trips
           {| Addr := [x7f; x00; x00; x01]; Port := 8080 |}
           [xc0; xa8; x00; x02; xc8; x22] eq_refl Hp eq_refl).
Defined.

(** ** From the greeting to the relay *)

(** X14. A client that sends a well-formed greeting offering method 2,
    the credentials of a configured user and a well-formed CONNECT to a
    destination that can be dialled, and that accepts the fourteen reply
    bytes, gets [05 02], [01 00], [05 00 00 01] and the bound address,
    and the session enters [Run] with the dialled connection in
    [tcp.server] and with what the client sent after the request still
    unread. *)
Theorem X14_handshake_reaches_the_relay :
  forall DialTCP relay (nmethod ulen plen : byte) (methods : list byte) (user : User)
         (a0 a1 a2 a3 p0 p1 : byte) (payload : list byte) (srv : net.TCPConn)
         (cf : Config) (w : option nat),
    length methods = Byte.to_nat nmethod -> In x02 methods ->
    ulen <> x00 -> length (bytes (Username user)) = Byte.to_nat ulen ->
    plen <> x00 -> length (bytes (Password user)) = Byte.to_nat plen ->
    In user (Users cf) ->
    DialTCP {| net.IP := [a0; a1; a2; a3]; net.Port := binary.Uint16 p0 p1 |} = Some srv ->
    has_room 14 w ->
    let c := {| incoming := x05 :: nmethod :: methods
                              ++ x01 :: ulen :: bytes (Username user)
                              ++ plen :: bytes (Password user)
                              ++ [x05; x01; x00; x01] ++ [a0; a1; a2; a3; p0; p1] ++ payload;
                accepts := w |} in
    let entry := snd (Req DialTCP (snd (Auth (NewTCPConn c cf)))) in
    In EvRun (trace (runTCPConn DialTCP relay c cf))
    /\ server entry = Some srv
    /\ clientR entry = payload
    /\ sent (trace entry) = [x05; x02; x01; x00; x05; x00; x00; x01] ++ bound_address srv.
Proof.
  intros DialTCP relay nmethod ulen plen methods user a0 a1 a2 a3 p0 p1 payload srv cf w
         Hm Hin Hulen Hu Hplen Hp Huser Hdial Hw c entry.
  destruct (has_room_less 4 10 w Hw) as [Hw1 Hw2].
  assert (Hfound : fold_left orb (map (userOk (bytes (Username user)) (bytes (Password user)))
                                      (Users cf)) false = true).
  { apply scan_finds. exists user. auto. }
  assert (EA : Auth (NewTCPConn c cf)
               = (true, mkTCPConn cf ([x05; x01; x00; x01] ++ [a0; a1; a2; a3; p0; p1] ++ payload)
                          (less_room 4 w) None false
                          ([] ++ greeting_events nmethod methods
                              ++ [EvReadByte (Some x01);
                                  EvReadByte (Some ulen);
                                  EvReadFull (length (bytes (Username user))) (bytes (Username user));
                                  EvReadByte (Some plen);
                                  EvReadFull (length (bytes (Password user))) (bytes (Password user))]
                              ++ scan_events (bytes (Username user)) (bytes (Password user)) (Users cf)
                              ++ [EvWrite [x01; x00] 2]))).
  { unfold NewTCPConn, c; cbn [incoming accepts].
    rewrite Auth_subnegotiation by assumption. now rewrite Hfound. }
  assert (ER : Req DialTCP (snd (Auth (NewTCPConn c cf))) = (true, entry))
    by (unfold entry; rewrite EA; cbn [snd];
        rewrite (Req_connect DialTCP a0 a1 a2 a3 p0 p1 srv) by assumption; reflexivity).
  split; [|split; [|split]].
  - unfold runTCPConn. rewrite EA in ER |- *. cbn [negb]. cbn [snd] in ER. rewrite ER. cbn [negb].
    destruct (Run relay entry) as [returned t3] eqn:Erun.
    destruct (Run_copy_relaying relay (set_copier true (log EvRun entry))) as (evs & E & _).
    unfold Run in Erun. rewrite Erun in E. cbn [snd trace set_copier log] in E.
    destruct returned.
    + rewrite Close_trace, E. apply in_or_app. left.
      apply in_or_app. left. apply in_or_app. right. now left.
    + rewrite E. apply in_or_app. left. apply in_or_app. right. now left.
  - unfold entry. rewrite EA. cbn [snd].
    now rewrite (Req_connect DialTCP a0 a1 a2 a3 p0 p1 srv) by assumption.
  - unfold entry. rewrite EA. cbn [snd].
    now rewrite (Req_connect DialTCP a0 a1 a2 a3 p0 p1 srv) by assumption.
  - unfold entry. rewrite EA. cbn [snd].
    rewrite (Req_connect DialTCP a0 a1 a2 a3 p0 p1 srv) by assumption.
    cbn [snd trace]. rewrite !sent_app, scan_events_sent.
    unfold greeting_events, request_events. cbn [sent app].
    rewrite <- (bound_address_length srv) at 1. rewrite firstn_all.
    cbn [firstn app]. now rewrite app_nil_r.
Qed.

Lemma X14_handshake_reaches_the_relay_witness :
  In EvRun (trace (runTCPConn reachable []
                     {| incoming := greeting_auth ++ connect_127_0_0_1_80 ++ [x47; x45; x54];
                        accepts := Some 14%nat |} users1))
  /\ clientR (snd (Req reachable
                     (snd (Auth (NewTCPConn
                                   {| incoming := greeting_auth ++ connect_127_0_0_1_80
                                                    ++ [x47; x45; x54];
                                      accepts := Some 14%nat |} users1)))))
     = [x47; x45; x54].
Proof.
  assert (Hin : In x02 [x02]) by (left; reflexivity).
  assert (Hu : x04 <> x00) by discriminate.
  assert (Huser : In {| Username := "user"; Password := "pass" |} (Users users1))
    by (left; reflexivity).
  assert (Hw : has_room 14 (Some 14%nat)) by (simpl; lia).
  destruct (X14_handshake_reaches_the_relay reachable [] x01 x04 x04 [x02]
              {| Username := "user"; Password := "pass" |}
              x7f x00 x00 x01 x00 x50 [x47; x45; x54]
              {| net.LocalAddr := {| net.IP := [xc0; xa8; x00; x02]; net.Port := 51234 |} |}
              users1 (Some 14%nat) eq_refl Hin Hu eq_refl Hu eq_refl Huser eq_refl Hw)
    as (Hrun & _ & Hrest & _).
  split; [exact Hrun|exact Hrest].
Defined.

(** ** The listener *)

Lemma accept_loop_transient pre : forall post l,
  accept_loop (pre ++ AcceptFailed false :: post) l = accept_loop (pre ++ post) l.
Proof.
  induction pre as [|a pre IH]; intros post l; [reflexivity|].
  destruct a as [c r w|[]]; cbn [app accept_loop]; auto.
Qed.

Lemma accept_loop_counts accepts : forall l,
  wg l = length (started l) ->
  wg (snd (accept_loop accepts l)) = length (started (snd (accept_loop accepts l)))
  /\ exists more, started (snd (accept_loop accepts l)) = started l ++ more.
Proof.
  induction accepts as [|a accepts IH]; intros l Hl; cbn [accept_loop].
  - split; [exact Hl|]. exists []. now rewrite app_nil_r.
  - destruct a as [c r w|[]].
    + destruct (IH {| wg := S (wg l); started := started l ++ [c] |}) as [Hc (more & E)].
      { cbn [wg started]. rewrite length_app. cbn [length]. lia. }
      split; [exact Hc|]. exists (c :: more). rewrite E. cbn [started].
      now rewrite <- app_assoc.
    + split; [exact Hl|]. exists []. now rewrite app_nil_r.
    + now apply IH.
Qed.

(** X15. An [Accept] error that is not due to the cancelled context does
    not change what the listener does: with or without it, the same
    connections are served in the same order and the listener ends in
    the same place. *)
Theorem X15_listener_survives_transient_accept_errors :
  forall (listen_ok : bool) (pre post : list accept_result),
    runTCPListener listen_ok (pre ++ AcceptFailed false :: post)
    = runTCPListener listen_ok (pre ++ post).
Proof.
  intros listen_ok pre post. unfold runTCPListener.
  now rewrite accept_loop_transient.
Qed.

(** X16. The counter of the listener's [WaitGroup] is the number of
    connections it has started, and it is never decremented: so
    [runTCPListener] returns only if it could not listen or if the
    context was cancelled before any connection was accepted; after a
    first accepted connection it never returns. *)
Theorem X16_listener_returns_only_without_connections :
  forall (listen_ok : bool) (accepts : list accept_result),
    let out := runTCPListener listen_ok accepts in
    wg (snd out) = length (started (snd out))
    /\ (fst out = ListenerReturned -> started (snd out) = [])
    /\ (forall c r w accepts', accepts = Accepted c r w :: accepts' ->
        listen_ok = true -> fst out <> ListenerReturned).
Proof.
  intros listen_ok accepts out. unfold out, runTCPListener.
  destruct listen_ok; cbn [negb].
  2:{ cbn. split; [reflexivity|]. split; [reflexivity|]. intros; discriminate. }
  destruct (accept_loop_counts accepts {| wg := 0; started := [] |} eq_refl)
    as [Hc (more & E)].
  assert (Hfirst : forall c r w accepts', accepts = Accepted c r w :: accepts' ->
                   wg (snd (accept_loop accepts {| wg := 0; started := [] |})) <> 0%nat).
  { intros c r w accepts' ->. cbn [accept_loop wg started app].
    destruct (accept_loop_counts accepts' {| wg := 1; started := [c] |} eq_refl)
      as [Hc' (more' & E')].
    rewrite Hc', E'. cbn. discriminate. }
  destruct (accept_loop accepts {| wg := 0; started := [] |}) as [left l].
  cbn [snd started app] in *.
  destruct left; cbn [fst snd].
  - destruct (Nat.eqb_spec (wg l) 0) as [Hz|Hnz].
    + split; [exact Hc|]. split.
      * intros _. rewrite Hz in Hc. symmetry in Hc. now apply length_zero_iff_nil.
      * intros c r w accepts' Ha _. exfalso. exact (Hfirst c r w accepts' Ha Hz).
    + split; [exact Hc|]. split; [discriminate|]. intros; discriminate.
  - split; [exact Hc|]. split; [discriminate|]. intros; discriminate.
Qed.
